(** * Arrow Combo Game: the simulation core of [App.tsx]

    A shallow embedding of the React component [App] (constants.ts,
    types.ts, App.tsx) and the properties of its update loop, its
    pause gesture and its overlay buttons.

    Modelling conventions.
    - A TypeScript [number] is an exact rational ([Q]).  Timestamps,
      the player's x, an object's y and size, and the score are integers
      far below 2^53, where IEEE double arithmetic is exact.  The
      abscissa of a spawned object and the combo progress are not
      integers: there the model holds the exact value that the double
      of the program approximates.  The general statements about these
      two quantities therefore assert bounds, order and sign only,
      which rounding to nearest preserves, and the sessions evaluated
      for collisions use objects on integer or dyadic abscissas, where
      the sums are exact.
    - The component's [useState] cells and [useRef] cells are the fields
      of one record [State].  A callback is a function [State -> State];
      the state updates a callback queues are applied together, in the
      order React applies them, when the callback returns.
    - [Date.now()] and [Math.random()] are arguments of the callbacks
      that read them.
    - [keysPressed] is a finite set of key names.
    - [requestAnimationFrame] / [cancelAnimationFrame] are modelled for
      the combo bar by a counter of handles and the list of the handles
      still pending; the main loop re-arms itself on every path and is
      driven by the [Frame] event. *)

From Stdlib Require Import QArith Qminmax Lqa Lia List.
From stdpp Require Import base decidable strings gmap.
Import ListNotations.

Local Open Scope Q_scope.
#[local] Set Warnings "-clear-no-such-hyp".

(** ** Numbers *)

Definition number : Type := Q.

(** [a < b] and [a > b] on numbers, as booleans. *)
Definition num_lt (a b : number) : bool := negb (Qle_bool b a).
Definition num_gt (a b : number) : bool := num_lt b a.

(** ** constants.ts *)

Definition GAME_WIDTH : number := 600.
Definition GAME_HEIGHT : number := 800.

Definition PAUSE_COMBO_TIMEOUT : number := 4000.

Definition PLAYER_WIDTH : number := 60.
Definition PLAYER_HEIGHT : number := 20.
Definition PLAYER_Y_POSITION : number := GAME_HEIGHT - PLAYER_HEIGHT - 20.
Definition PLAYER_SPEED : number := 8.

Definition OBJECT_SIZE : number := 25.
Definition OBJECT_SPEED : number := 4.
Definition OBJECT_SPAWN_INTERVAL : number := 500.

(** ** types.ts *)

Inductive GameState : Type := Ready | Active | Paused | GameOver.

Definition GameState_eqb (a b : GameState) : bool :=
  match a, b with
  | Ready, Ready | Active, Active | Paused, Paused | GameOver, GameOver => true
  | _, _ => false
  end.

Module PlayerState.
Record t : Type := mk {
  x : number;
  width : number;
  height : number
}.
End PlayerState.

Module FallingObject.
Record t : Type := mk {
  id : number;
  x : number;
  y : number;
  size : number
}.
End FallingObject.

(** ** The component state

    The five [useState] cells, the [useRef] cells the simulation reads
    ([gameLoopRef] only re-arms the loop and is left out), and the host's
    animation-frame bookkeeping for the combo bar: [rafNext] is the next
    handle [requestAnimationFrame] returns, [rafPending] the handles
    whose [animateComboBar] callback has been requested and neither run
    nor cancelled.  Handles are positive, hence truthy. *)

Record State : Type := mkState {
  gameState : GameState;
  player : PlayerState.t;
  objects : list FallingObject.t;
  score : number;
  pauseComboProgress : number;
  keysPressed : gset string;
  lastObjectSpawn : number;
  lastComboPressTime : number;
  comboStartTimeRef : number;
  comboAnimationRef : option positive;
  rafNext : positive;
  rafPending : list positive
}.

Definition setGameState (v : GameState) (s : State) : State :=
  mkState v (player s) (objects s) (score s) (pauseComboProgress s)
    (keysPressed s) (lastObjectSpawn s) (lastComboPressTime s)
    (comboStartTimeRef s) (comboAnimationRef s) (rafNext s) (rafPending s).

Definition setPlayer (v : PlayerState.t) (s : State) : State :=
  mkState (gameState s) v (objects s) (score s) (pauseComboProgress s)
    (keysPressed s) (lastObjectSpawn s) (lastComboPressTime s)
    (comboStartTimeRef s) (comboAnimationRef s) (rafNext s) (rafPending s).

Definition setObjects (v : list FallingObject.t) (s : State) : State :=
  mkState (gameState s) (player s) v (score s) (pauseComboProgress s)
    (keysPressed s) (lastObjectSpawn s) (lastComboPressTime s)
    (comboStartTimeRef s) (comboAnimationRef s) (rafNext s) (rafPending s).

Definition setScore (v : number) (s : State) : State :=
  mkState (gameState s) (player s) (objects s) v (pauseComboProgress s)
    (keysPressed s) (lastObjectSpawn s) (lastComboPressTime s)
    (comboStartTimeRef s) (comboAnimationRef s) (rafNext s) (rafPending s).

Definition setPauseComboProgress (v : number) (s : State) : State :=
  mkState (gameState s) (player s) (objects s) (score s) v
    (keysPressed s) (lastObjectSpawn s) (lastComboPressTime s)
    (comboStartTimeRef s) (comboAnimationRef s) (rafNext s) (rafPending s).

Definition setKeysPressed (v : gset string) (s : State) : State :=
  mkState (gameState s) (player s) (objects s) (score s) (pauseComboProgress s)
    v (lastObjectSpawn s) (lastComboPressTime s)
    (comboStartTimeRef s) (comboAnimationRef s) (rafNext s) (rafPending s).

Definition setLastObjectSpawn (v : number) (s : State) : State :=
  mkState (gameState s) (player s) (objects s) (score s) (pauseComboProgress s)
    (keysPressed s) v (lastComboPressTime s)
    (comboStartTimeRef s) (comboAnimationRef s) (rafNext s) (rafPending s).

Definition setLastComboPressTime (v : number) (s : State) : State :=
  mkState (gameState s) (player s) (objects s) (score s) (pauseComboProgress s)
    (keysPressed s) (lastObjectSpawn s) v
    (comboStartTimeRef s) (comboAnimationRef s) (rafNext s) (rafPending s).

Definition setComboStartTimeRef (v : number) (s : State) : State :=
  mkState (gameState s) (player s) (objects s) (score s) (pauseComboProgress s)
    (keysPressed s) (lastObjectSpawn s) (lastComboPressTime s)
    v (comboAnimationRef s) (rafNext s) (rafPending s).

Definition setComboAnimationRef (v : option positive) (s : State) : State :=
  mkState (gameState s) (player s) (objects s) (score s) (pauseComboProgress s)
    (keysPressed s) (lastObjectSpawn s) (lastComboPressTime s)
    (comboStartTimeRef s) v (rafNext s) (rafPending s).

(** *** The host's animation frames *)

Definition requestAnimationFrame (s : State) : positive * State :=
  let h := rafNext s in
  (h, mkState (gameState s) (player s) (objects s) (score s)
        (pauseComboProgress s) (keysPressed s) (lastObjectSpawn s)
        (lastComboPressTime s) (comboStartTimeRef s) (comboAnimationRef s)
        (Pos.succ h) (h :: rafPending s)).

Definition cancelAnimationFrame (h : positive) (s : State) : State :=
  mkState (gameState s) (player s) (objects s) (score s)
    (pauseComboProgress s) (keysPressed s) (lastObjectSpawn s)
    (lastComboPressTime s) (comboStartTimeRef s) (comboAnimationRef s)
    (rafNext s) (List.filter (fun h' => negb (Pos.eqb h' h)) (rafPending s)).

(** [if (comboAnimationRef.current) cancelAnimationFrame(comboAnimationRef.current)] *)
Definition cancelComboAnimation (s : State) : State :=
  match comboAnimationRef s with
  | Some h => cancelAnimationFrame h s
  | None => s
  end.

(** ** App.tsx *)

Definition initialPlayer : PlayerState.t :=
  PlayerState.mk (GAME_WIDTH / 2 - PLAYER_WIDTH / 2) PLAYER_WIDTH PLAYER_HEIGHT.

Definition initialState : State :=
  {| gameState := Ready;
     player := initialPlayer;
     objects := [];
     score := 0;
     pauseComboProgress := 0;
     keysPressed := ∅;
     lastObjectSpawn := 0;
     lastComboPressTime := 0;
     comboStartTimeRef := 0;
     comboAnimationRef := None;
     rafNext := 1%positive;
     rafPending := [] |}.

(** [keysPressed.current.has(k)] *)
Definition has (k : string) (keys : gset string) : bool :=
  bool_decide (k ∈ keys).

Definition resetGame (s : State) : State :=
  let s := setPlayer initialPlayer s in
  let s := setObjects [] s in
  let s := setScore 0 s in
  let s := setKeysPressed ∅ s in
  setGameState Active s.

Definition cleanupCombo (s : State) : State :=
  let s := setLastComboPressTime 0 s in
  let s := cancelComboAnimation s in
  setPauseComboProgress 0 s.

Definition resumeGame (s : State) : State :=
  if GameState_eqb (gameState s) Paused then
    let s := setKeysPressed ∅ s in
    let s := cleanupCombo s in
    setGameState Active s
  else s.

(** The progress is the exact value of the expression; the program
    stores a double close to it which, timestamps being integers, has
    the same sign and the same order in [now]. *)
Definition animateComboBar (now : number) (s : State) : State :=
  let elapsed := now - comboStartTimeRef s in
  let progress := Qmax 0 (50 * (1 - elapsed / PAUSE_COMBO_TIMEOUT)) in
  let s := setPauseComboProgress progress s in
  if num_gt progress 0 then
    let '(h, s) := requestAnimationFrame s in
    setComboAnimationRef (Some h) s
  else
    setLastComboPressTime 0 s.

Definition handlePauseCombo (now : number) (s : State) : State :=
  if negb (GameState_eqb (gameState s) Active)
     && negb (GameState_eqb (gameState s) Paused) then s
  else if num_lt (now - lastComboPressTime s) PAUSE_COMBO_TIMEOUT then
    let s' :=
      if GameState_eqb (gameState s) Active then setGameState Paused s
      else if GameState_eqb (gameState s) Paused then setGameState Active s
      else s in
    cleanupCombo s'
  else
    let s := setLastComboPressTime now s in
    let s := setComboStartTimeRef now s in
    let s := cancelComboAnimation s in
    let '(h, s) := requestAnimationFrame s in
    setComboAnimationRef (Some h) s.

(** The updater passed to [setPlayer] in [gameLoop]. *)
Definition movePlayer (keys : gset string) (p : PlayerState.t) : PlayerState.t :=
  let newX := PlayerState.x p in
  let newX := if has "ArrowLeft" keys then newX - PLAYER_SPEED else newX in
  let newX := if has "ArrowRight" keys then newX + PLAYER_SPEED else newX in
  let newX := Qmax 0 (Qmin (GAME_WIDTH - PLAYER_WIDTH) newX) in
  PlayerState.mk newX (PlayerState.width p) (PlayerState.height p).

(** [x] is the exact product; the program stores the double nearest
    to it, which lies in the same interval. *)
Definition newObject (now rnd : number) : FallingObject.t :=
  {| FallingObject.id := now;
     FallingObject.x := rnd * (GAME_WIDTH - OBJECT_SIZE);
     FallingObject.y := - OBJECT_SIZE;
     FallingObject.size := OBJECT_SIZE |}.

(** [obj => ({ ...obj, y: obj.y + OBJECT_SPEED })] *)
Definition fall (obj : FallingObject.t) : FallingObject.t :=
  {| FallingObject.id := FallingObject.id obj;
     FallingObject.x := FallingObject.x obj;
     FallingObject.y := FallingObject.y obj + OBJECT_SPEED;
     FallingObject.size := FallingObject.size obj |}.

Definition onField (obj : FallingObject.t) : bool :=
  num_lt (FallingObject.y obj) GAME_HEIGHT.

(** The condition of the collision test, for a player whose left edge
    is [playerX].  The sums are exact here; the program rounds
    [obj.x + obj.size] to a double, which changes nothing for an
    abscissa that is an integer or a dyadic number such as 251.5625. *)
Definition hits (playerX : number) (obj : FallingObject.t) : bool :=
  num_gt (FallingObject.y obj + FallingObject.size obj) PLAYER_Y_POSITION
  && num_lt (FallingObject.y obj) (PLAYER_Y_POSITION + PLAYER_HEIGHT)
  && num_gt (FallingObject.x obj + FallingObject.size obj) playerX
  && num_lt (FallingObject.x obj) (playerX + PLAYER_WIDTH).

(** One run of [gameLoop].  [player.x] inside the [setObjects] updater
    is the [player] constant of the render that built this [gameLoop]
    (it is rebuilt whenever [player.x] or [gameState] changes), that is,
    the player of the state the tick starts in; the [setPlayer] updater
    queued a few lines above has not been applied to it. *)
Definition gameLoop (now rnd : number) (s : State) : State :=
  if negb (GameState_eqb (gameState s) Active) then s
  else
    let renderedPlayer := player s in
    (* Player movement *)
    let s := setPlayer (movePlayer (keysPressed s) (player s)) s in
    (* Object movement and spawning *)
    let s :=
      if num_gt (now - lastObjectSpawn s) OBJECT_SPAWN_INTERVAL then
        let s := setLastObjectSpawn now s in
        setObjects (objects s ++ [newObject now rnd]) s
      else s in
    let updatedObjects := List.filter onField (List.map fall (objects s)) in
    (* Collision detection *)
    let s :=
      fold_left
        (fun st obj =>
           if hits (PlayerState.x renderedPlayer) obj
           then setGameState GameOver st else st)
        updatedObjects s in
    let s := setObjects updatedObjects s in
    setScore (score s + 1) s.

Definition handleKeyDown (key : string) (repeat : bool) (now : number)
    (s : State) : State :=
  if repeat then s
  else
    let s := setKeysPressed ({[ key ]} ∪ keysPressed s) s in
    if has "ArrowLeft" (keysPressed s) && has "ArrowRight" (keysPressed s)
    then handlePauseCombo now s
    else s.

Definition handleKeyUp (key : string) (s : State) : State :=
  setKeysPressed (keysPressed s ∖ {[ key ]}) s.

(** *** The overlay

    [renderContent] decides which button exists and what it calls. *)

Inductive Handler : Type := OnResetGame | OnResumeGame.

Record OverlayProps : Type := mkOverlay {
  title : string;
  buttonText : string;
  onButtonClick : Handler;
  overlayScore : option number
}.

Definition renderContent (s : State) : option OverlayProps :=
  match gameState s with
  | Ready => Some (mkOverlay "Arrow Combo Game" "Start Game" OnResetGame None)
  | GameOver => Some (mkOverlay "Game Over" "Restart" OnResetGame (Some (score s)))
  | Paused => Some (mkOverlay "Paused" "Resume" OnResumeGame None)
  | Active => None
  end.

Definition runHandler (h : Handler) (s : State) : State :=
  match h with
  | OnResetGame => resetGame s
  | OnResumeGame => resumeGame s
  end.

(** The start action as the interface offers it: a click on the
    overlay button that [renderContent] binds to [resetGame].  Where no
    such button is rendered there is nothing to invoke. *)
Definition start (s : State) : State :=
  match renderContent s with
  | Some overlay =>
      match onButtonClick overlay with
      | OnResetGame => resetGame s
      | OnResumeGame => s
      end
  | None => s
  end.

(** ** Events

    What the host can do to the mounted component. *)

Inductive Event : Type :=
| Frame (now rnd : number)
| ComboFrame (h : positive) (now : number)
| KeyDown (key : string) (repeat : bool) (now : number)
| KeyUp (key : string)
| Click.

Definition dispatch (e : Event) (s : State) : State :=
  match e with
  | Frame now rnd => gameLoop now rnd s
  | ComboFrame h now =>
      if existsb (Pos.eqb h) (rafPending s)
      then animateComboBar now (cancelAnimationFrame h s)
      else s
  | KeyDown key repeat now => handleKeyDown key repeat now s
  | KeyUp key => handleKeyUp key s
  | Click =>
      match renderContent s with
      | Some overlay => runHandler (onButtonClick overlay) s
      | None => s
      end
  end.

(** The keyboard effect depends on [handlePauseCombo], which is rebuilt
    when [gameState] changes; its cleanup then cancels the combo bar's
    pending frame. *)
Definition commit (before after : State) : State :=
  if GameState_eqb (gameState before) (gameState after) then after
  else cancelComboAnimation after.

Definition step (e : Event) (s : State) : State := commit s (dispatch e s).

Definition run (es : list Event) (s : State) : State :=
  fold_left (fun st e => step e st) es s.

Definition reachable (s : State) : Prop := exists es, s = run es initialState.

(** ** Vocabulary of the statements *)

(** The list the [setObjects] updaters of one tick start from and the
    value [lastObjectSpawn] is left with. *)
Definition spawnDue (now : number) (s : State) : bool :=
  num_gt (now - lastObjectSpawn s) OBJECT_SPAWN_INTERVAL.

Definition afterSpawn (now rnd : number) (s : State) : list FallingObject.t :=
  if spawnDue now s then objects s ++ [newObject now rnd] else objects s.

Definition updatedObjects (now rnd : number) (s : State) : list FallingObject.t :=
  List.filter onField (List.map fall (afterSpawn now rnd s)).

(** [clamp v lo hi]: [v] brought into [[lo, hi]]. *)
Definition clamp (v lo hi : number) : number :=
  if num_lt v lo then lo else if num_gt v hi then hi else v.

(** 1 when [k] is held, 0 otherwise. *)
Definition held (k : string) (keys : gset string) : number :=
  if has k keys then 1 else 0.

(** [fall] applied [n] times. *)
Fixpoint fallen (n : nat) (obj : FallingObject.t) : FallingObject.t :=
  match n with
  | O => obj
  | S n => fall (fallen n obj)
  end.

(** Every object of a state satisfies [y < GAME_HEIGHT]. *)
Definition onFieldAll (s : State) : Prop :=
  forall obj, In obj (objects s) -> FallingObject.y obj < GAME_HEIGHT.

(** The player sits on an integer abscissa of the playfield. *)
Definition playerOnGrid (p : PlayerState.t) : Prop :=
  exists z : Z, PlayerState.x p == inject_Z z /\ (0 <= z <= 540)%Z.

(** At most one combo frame is pending, the one [comboAnimationRef]
    holds. *)
Definition oneComboFrame (s : State) : Prop :=
  forall h, In h (rafPending s) -> comboAnimationRef s = Some h.

(** The combo machine is idle when no first press is recorded:
    [lastComboPressTime.current] is 0. *)
Definition comboIdle (s : State) : Prop := lastComboPressTime s == 0.

(** *** Sample states and sessions *)

(** [n] consecutive frames, 16 ms apart, the first at [t]. *)
Fixpoint frames (n : nat) (t rnd : number) : list Event :=
  match n with
  | O => []
  | S n => Frame t rnd :: frames n (Qred (t + 16)) rnd
  end.

(** Mid-game: the player at 270 with ArrowRight held, one object whose
    next position is level with the player and whose right edge (275)
    is past 270 but not past 278. *)
Definition grazing : State :=
  {| gameState := Active;
     player := PlayerState.mk 270 PLAYER_WIDTH PLAYER_HEIGHT;
     objects := [FallingObject.mk 1700000000000 250 735 OBJECT_SIZE];
     score := 190;
     pauseComboProgress := 0;
     keysPressed := {[ "ArrowRight"%string ]};
     lastObjectSpawn := 1700000003000;
     lastComboPressTime := 0;
     comboStartTimeRef := 0;
     comboAnimationRef := None;
     rafNext := 1%positive;
     rafPending := [] |}.

(** A session that ends like [grazing]: start, 190 frames during which
    an object spawned at x = 7/16 * 575 = 251.5625 comes down, then
    ArrowRight goes down. *)
Definition grazingSession : list Event :=
  Click :: frames 190 1700000000000 (7 # 16)
  ++ [KeyDown "ArrowRight" false 1700000003040].

(** Mid-game, the other way round: the player at 270 with ArrowLeft
    held, one object whose next position is level with the player and
    whose right edge (265) is past 262 but not past 270. *)
Definition closing : State :=
  {| gameState := Active;
     player := PlayerState.mk 270 PLAYER_WIDTH PLAYER_HEIGHT;
     objects := [FallingObject.mk 1700000000000 240 735 OBJECT_SIZE];
     score := 190;
     pauseComboProgress := 0;
     keysPressed := {[ "ArrowLeft"%string ]};
     lastObjectSpawn := 1700000003000;
     lastComboPressTime := 0;
     comboStartTimeRef := 0;
     comboAnimationRef := None;
     rafNext := 1%positive;
     rafPending := [] |}.

(** A session that ends like [closing]: the object is spawned at
    x = 27/64 * 575 = 242.578125 and ArrowLeft goes down. *)
Definition closingSession : list Event :=
  Click :: frames 190 1700000000000 (27 # 64)
  ++ [KeyDown "ArrowLeft" false 1700000003040].

(** A session in which the combo is armed just before a crash: start,
    190 frames, both arrows go down (first press of a combo), the combo
    bar runs one frame, then the object reaches the player. *)
Definition armedCrashSession : list Event :=
  Click :: frames 190 1700000000000 (1 # 2)
  ++ [KeyDown "ArrowLeft" false 1700000003040;
      KeyDown "ArrowRight" false 1700000003044;
      ComboFrame 1 1700000003056;
      Frame 1700000003056 (1 # 2)].

(** A running game in which the combo has been pressed once. *)
Definition armedState : State :=
  run [Click;
       KeyDown "ArrowLeft" false 1700000003040;
       KeyDown "ArrowRight" false 1700000003044] initialState.


(** ** The presentational components

    Each component is modelled by what it hands to the renderer: the
    [style] of its [div]. *)

Module Style.
Record t : Type := mk {
  left : number;
  top : number;
  width : number;
  height : number
}.
End Style.

Definition Player (p : PlayerState.t) : Style.t :=
  {| Style.left := PlayerState.x p;
     Style.top := PLAYER_Y_POSITION;
     Style.width := PlayerState.width p;
     Style.height := PlayerState.height p |}.

Definition Obstacle (obstacle : FallingObject.t) : Style.t :=
  {| Style.left := FallingObject.x obstacle;
     Style.top := FallingObject.y obstacle;
     Style.width := FallingObject.size obstacle;
     Style.height := FallingObject.size obstacle |}.

(** [PauseComboProgressBar]: nothing when [progress <= 0], otherwise a
    bar whose width is [progress] percent. *)
Definition PauseComboProgressBar (progress : number) : option number :=
  if Qle_bool progress 0 then None else Some progress.

(** ** Vocabulary of the further properties *)


(** Each object is at least [OBJECT_SPEED] above every object listed
    before it. *)
Fixpoint stacked (objs : list FallingObject.t) : Prop :=
  match objs with
  | [] => True
  | obj :: rest =>
      (forall obj', In obj' rest ->
                    FallingObject.y obj' + OBJECT_SPEED <= FallingObject.y obj)
      /\ stacked rest
  end.

(** Each id exceeds every id listed before it by more than
    [OBJECT_SPAWN_INTERVAL]. *)
Fixpoint idsSpaced (objs : list FallingObject.t) : Prop :=
  match objs with
  | [] => True
  | obj :: rest =>
      (forall obj', In obj' rest ->
                    FallingObject.id obj + OBJECT_SPAWN_INTERVAL
                    < FallingObject.id obj')
      /\ idsSpaced rest
  end.

(** The object set one [Active] tick makes of the set [objs], given the
    time [last] of the last spawn. *)
Definition tickObjects (now rnd last : number) (objs : list FallingObject.t)
    : list FallingObject.t :=
  List.filter onField
    (List.map fall
       (if num_gt (now - last) OBJECT_SPAWN_INTERVAL
        then objs ++ [newObject now rnd] else objs)).

Definition tickSpawn (now last : number) : number :=
  if num_gt (now - last) OBJECT_SPAWN_INTERVAL then now else last.

(** Every object is a square of side [OBJECT_SIZE] inside the playfield
    or, vertically, at most one fall short of entering it. *)
Definition inPlayfield (obj : FallingObject.t) : Prop :=
  FallingObject.size obj = OBJECT_SIZE
  /\ 0 <= FallingObject.x obj
  /\ FallingObject.x obj + FallingObject.size obj <= GAME_WIDTH
  /\ - OBJECT_SIZE + OBJECT_SPEED <= FallingObject.y obj
  /\ FallingObject.y obj < GAME_HEIGHT.

(** [Math.random()] returns a number in [[0, 1)]. *)
Definition randomInRange (e : Event) : Prop :=
  match e with
  | Frame _ rnd => 0 <= rnd /\ rnd < 1
  | _ => True
  end.

(** A frame of the main loop. *)
Definition isFrame (e : Event) : Prop :=
  match e with
  | Frame _ _ => True
  | _ => False
  end.

(** A frame of the main loop or the auto-repeat of a held key. *)
Definition isFrameOrRepeat (e : Event) : Prop :=
  match e with
  | Frame _ _ => True
  | KeyDown _ repeat _ => repeat = true
  | _ => False
  end.

(** The three cells a game consists of. *)
Definition sameGame (s s' : State) : Prop :=
  player s' = player s /\ objects s' = objects s /\ score s' = score s.

(** The moves of the game state machine. *)
Definition transition (from to : GameState) : Prop :=
  match from, to with
  | Ready, Active
  | Active, Paused
  | Active, GameOver
  | Paused, Active
  | GameOver, Active => True
  | _, _ => False
  end.

(** A running game forty frames old: two objects are falling. *)
Definition earlyGame : State :=
  run (Click :: frames 40 1700000000000 (1 # 2)) initialState.

(** A game paused by the gesture: both arrows, ArrowRight released and
    pressed again within the window. *)
Definition pausedGame : State :=
  run [Click;
       KeyDown "ArrowLeft" false 1700000003040;
       KeyDown "ArrowRight" false 1700000003044;
       KeyUp "ArrowRight";
       KeyDown "ArrowRight" false 1700000003500] initialState.

(** * Properties *)

(** ** Basic facts *)

(** Decide every test in the goal, then compare the records. *)
Ltac by_cases :=
  repeat match goal with
         | |- context [if ?c then _ else _] => destruct c
         | |- context [match ?o with Some _ => _ | None => _ end] =>
             destruct o
         end;
  try reflexivity.

Lemma num_lt_iff (a b : number) : num_lt a b = true <-> a < b.
Proof.
  unfold num_lt. rewrite negb_true_iff. split; intros H.
  - apply Qnot_le_lt. intros Hle. apply Qle_bool_iff in Hle. congruence.
  - destruct (Qle_bool b a) eqn:E; [| reflexivity].
    apply Qle_bool_iff in E. exfalso. exact (Qlt_not_le _ _ H E).
Qed.

Lemma num_gt_iff (a b : number) : num_gt a b = true <-> a > b.
Proof. unfold num_gt. apply num_lt_iff. Qed.

Lemma num_lt_false_iff (a b : number) : num_lt a b = false <-> b <= a.
Proof.
  unfold num_lt. rewrite negb_false_iff. apply Qle_bool_iff.
Qed.

Lemma GameState_eqb_eq (a b : GameState) : GameState_eqb a b = true <-> a = b.
Proof. destruct a, b; simpl; split; congruence. Qed.


(** The [for] loop of the collision test sets [GameOver] when some
    object hits and touches nothing else. *)
Lemma collision_loop (playerX : number) (l : list FallingObject.t) (s : State) :
  fold_left
    (fun st obj => if hits playerX obj then setGameState GameOver st else st)
    l s
  = if existsb (hits playerX) l then setGameState GameOver s else s.
Proof.
  revert s. induction l as [| obj l IH]; intros s; simpl; [reflexivity |].
  rewrite IH. destruct (hits playerX obj); simpl; [| reflexivity].
  destruct (existsb (hits playerX) l); reflexivity.
Qed.

(** [gameLoop] on an [Active] state, field by field. *)
Lemma gameLoop_active (now rnd : number) (s : State) :
  gameState s = Active ->
  gameLoop now rnd s =
  {| gameState :=
       if existsb (hits (PlayerState.x (player s))) (updatedObjects now rnd s)
       then GameOver else Active;
     player := movePlayer (keysPressed s) (player s);
     objects := updatedObjects now rnd s;
     score := score s + 1;
     pauseComboProgress := pauseComboProgress s;
     keysPressed := keysPressed s;
     lastObjectSpawn := if spawnDue now s then now else lastObjectSpawn s;
     lastComboPressTime := lastComboPressTime s;
     comboStartTimeRef := comboStartTimeRef s;
     comboAnimationRef := comboAnimationRef s;
     rafNext := rafNext s;
     rafPending := rafPending s |}.
Proof.
  intros HA. destruct s as [gs p objs sc pr keys lo lc cs ar rn rp].
  cbn [gameState] in HA. subst gs.
  unfold gameLoop, updatedObjects, afterSpawn, spawnDue.
  cbv beta zeta iota delta
    [gameState GameState_eqb negb setLastObjectSpawn setObjects setScore
     setPlayer objects player score pauseComboProgress keysPressed
     lastObjectSpawn lastComboPressTime comboStartTimeRef
     comboAnimationRef rafNext rafPending].
  destruct (num_gt (now - lo) OBJECT_SPAWN_INTERVAL);
    rewrite collision_loop;
    match goal with
    | |- context [existsb ?f ?l] => destruct (existsb f l)
    end; reflexivity.
Qed.

Lemma gameLoop_inactive (now rnd : number) (s : State) :
  gameState s <> Active -> gameLoop now rnd s = s.
Proof.
  intros HA. unfold gameLoop.
  destruct (GameState_eqb (gameState s) Active) eqn:E; [| reflexivity].
  apply GameState_eqb_eq in E. contradiction.
Qed.

(** ** The player controller *)

(** [Math.max(lo, Math.min(hi, v))] is [clamp v lo hi]. *)
Lemma max_min_clamp (v lo hi : number) :
  lo <= hi -> Qmax lo (Qmin hi v) == clamp v lo hi.
Proof.
  intros Hlh. unfold clamp.
  destruct (Q.max_spec lo (Qmin hi v)) as [[H1 H2] | [H1 H2]];
  destruct (Q.min_spec hi v) as [[H3 H4] | [H3 H4]];
  rewrite H2; rewrite ?H4; rewrite ?H4 in H1;
  destruct (num_lt v lo) eqn:El;
  [apply num_lt_iff in El | apply num_lt_false_iff in El
  |apply num_lt_iff in El | apply num_lt_false_iff in El
  |apply num_lt_iff in El | apply num_lt_false_iff in El
  |apply num_lt_iff in El | apply num_lt_false_iff in El];
  try lra;
  (destruct (num_gt v hi) eqn:Eh;
   [apply num_gt_iff in Eh | apply num_lt_false_iff in Eh]; lra).
Qed.

Lemma clamp_bounds (v lo hi : number) :
  lo <= hi -> lo <= clamp v lo hi /\ clamp v lo hi <= hi.
Proof.
  intros Hlh. unfold clamp.
  destruct (num_lt v lo) eqn:El;
    [apply num_lt_iff in El | apply num_lt_false_iff in El];
    [split; lra |].
  destruct (num_gt v hi) eqn:Eh;
    [apply num_gt_iff in Eh | apply num_lt_false_iff in Eh];
    split; lra.
Qed.

Lemma clamp_inside (v lo hi : number) :
  lo <= v -> v <= hi -> clamp v lo hi == v.
Proof.
  intros Hl Hh. unfold clamp.
  destruct (num_lt v lo) eqn:El;
    [apply num_lt_iff in El; lra |].
  destruct (num_gt v hi) eqn:Eh;
    [apply num_gt_iff in Eh; lra | reflexivity].
Qed.

Lemma movePlayer_x (keys : gset string) (p : PlayerState.t) :
  PlayerState.x (movePlayer keys p)
  == clamp (PlayerState.x p - PLAYER_SPEED * held "ArrowLeft" keys
            + PLAYER_SPEED * held "ArrowRight" keys)
           0 (GAME_WIDTH - PLAYER_WIDTH).
Proof.
  rewrite <- max_min_clamp by (unfold GAME_WIDTH, PLAYER_WIDTH; lra).
  unfold movePlayer, held. cbn [PlayerState.x].
  apply Q.max_compat; [reflexivity |].
  apply Q.min_compat; [reflexivity |].
  destruct (has "ArrowLeft" keys), (has "ArrowRight" keys);
    unfold PLAYER_SPEED; lra.
Qed.

Lemma clamp_compat (v w lo hi : number) :
  lo <= hi -> v == w -> clamp v lo hi == clamp w lo hi.
Proof.
  intros Hlh E. rewrite <- !max_min_clamp by assumption.
  apply Q.max_compat; [reflexivity |]. apply Q.min_compat; [reflexivity | exact E].
Qed.

(** The movement step keeps the player on the integer grid: the
    arithmetic of [movePlayer] is exact in double precision. *)
Lemma movePlayer_onGrid (keys : gset string) (p : PlayerState.t) :
  playerOnGrid p -> playerOnGrid (movePlayer keys p).
Proof.
  intros [z [E Hz]]. unfold playerOnGrid.
  assert (Hb : 0 <= GAME_WIDTH - PLAYER_WIDTH)
    by (unfold GAME_WIDTH, PLAYER_WIDTH; lra).
  assert (Hd : exists d : Z,
             (-8 <= d <= 8)%Z
             /\ PlayerState.x (movePlayer keys p)
                == clamp (inject_Z (z + d)) 0 (GAME_WIDTH - PLAYER_WIDTH)).
  { destruct (has "ArrowLeft" keys) eqn:EL, (has "ArrowRight" keys) eqn:ER;
      [exists 0%Z | exists (-8)%Z | exists 8%Z | exists 0%Z];
      (split; [lia |]); rewrite movePlayer_x; apply clamp_compat; try exact Hb;
      unfold held; rewrite EL, ER, E, inject_Z_plus; unfold PLAYER_SPEED;
      try change (inject_Z 0) with 0; try change (inject_Z 8) with 8;
      try change (inject_Z (-8)) with (-8); lra. }
  destruct Hd as [d [Hdr Hx]].
  unfold clamp in Hx.
  destruct (num_lt (inject_Z (z + d)) 0) eqn:El.
  { exists 0%Z. split; [exact Hx | lia]. }
  apply num_lt_false_iff in El.
  change 0 with (inject_Z 0) in El. rewrite <- Zle_Qle in El.
  destruct (num_gt (inject_Z (z + d)) (GAME_WIDTH - PLAYER_WIDTH)) eqn:Eh.
  { exists 540%Z. split; [| lia]. rewrite Hx. reflexivity. }
  apply num_lt_false_iff in Eh.
  assert (Eh' : inject_Z (z + d) <= inject_Z 540)
    by (unfold GAME_WIDTH, PLAYER_WIDTH in Eh;
        change (inject_Z 540) with 540; lra).
  rewrite <- Zle_Qle in Eh'.
  exists (z + d)%Z. split; [exact Hx | lia].
Qed.

(** C5. The movement step returns
    [clamp (x - PLAYER_SPEED*[ArrowLeft held] + PLAYER_SPEED*[ArrowRight held])
    0 (GAME_WIDTH - PLAYER_WIDTH)] for every held-key set and every
    position [x]; an [Active] tick installs that result as the player, so
    after every [Active] tick the player's x is in
    [[0, GAME_WIDTH - PLAYER_WIDTH]]. *)
Theorem player_movement_clamped :
  (forall (keys : gset string) (p : PlayerState.t),
      PlayerState.x (movePlayer keys p)
      == clamp (PlayerState.x p - PLAYER_SPEED * held "ArrowLeft" keys
                + PLAYER_SPEED * held "ArrowRight" keys)
               0 (GAME_WIDTH - PLAYER_WIDTH))
  /\ (forall (now rnd : number) (s : State),
        gameState s = Active ->
        player (gameLoop now rnd s) = movePlayer (keysPressed s) (player s)
        /\ 0 <= PlayerState.x (player (gameLoop now rnd s))
        /\ PlayerState.x (player (gameLoop now rnd s))
           <= GAME_WIDTH - PLAYER_WIDTH).
Proof.
  split.
  - exact movePlayer_x.
  - intros now rnd s HA. rewrite (gameLoop_active now rnd s HA).
    cbn [player]. split; [reflexivity |].
    rewrite movePlayer_x. apply clamp_bounds.
    unfold GAME_WIDTH, PLAYER_WIDTH. lra.
Qed.

Lemma player_movement_clamped_witness :
  gameState grazing = Active
  /\ player (gameLoop 1700000003056 (1 # 2) grazing)
     = movePlayer (keysPressed grazing) (player grazing)
  /\ 0 <= PlayerState.x (player (gameLoop 1700000003056 (1 # 2) grazing))
  /\ PlayerState.x (player (gameLoop 1700000003056 (1 # 2) grazing))
     <= GAME_WIDTH - PLAYER_WIDTH.
Proof.
  split; [reflexivity |].
  apply (proj2 player_movement_clamped 1700000003056 (1 # 2) grazing).
  reflexivity.
Defined.

(** C10. With both ArrowLeft and ArrowRight held, the movement step
    leaves a player whose x is in [[0, GAME_WIDTH - PLAYER_WIDTH]] where
    it is: the two deltas cancel. *)
Theorem both_arrows_cancel (keys : gset string) (p : PlayerState.t) :
  0 <= PlayerState.x p ->
  PlayerState.x p <= GAME_WIDTH - PLAYER_WIDTH ->
  "ArrowLeft"%string ∈ keys ->
  "ArrowRight"%string ∈ keys ->
  PlayerState.x (movePlayer keys p) == PlayerState.x p
  /\ PlayerState.width (movePlayer keys p) = PlayerState.width p
  /\ PlayerState.height (movePlayer keys p) = PlayerState.height p.
Proof.
  intros H0 H1 HL HR. split; [| split; reflexivity].
  rewrite movePlayer_x. unfold held, has.
  rewrite !bool_decide_eq_true_2 by assumption.
  rewrite clamp_inside; unfold PLAYER_SPEED in *; lra.
Qed.

Lemma both_arrows_cancel_witness :
  PlayerState.x
    (movePlayer {[ "ArrowLeft"%string; "ArrowRight"%string ]}
       (PlayerState.mk 270 PLAYER_WIDTH PLAYER_HEIGHT))
  == 270.
Proof.
  apply (both_arrows_cancel
           {[ "ArrowLeft"%string; "ArrowRight"%string ]}
           (PlayerState.mk 270 PLAYER_WIDTH PLAYER_HEIGHT)).
  - vm_compute. discriminate.
  - vm_compute. discriminate.
  - apply (bool_decide_unpack _). vm_compute. exact I.
  - apply (bool_decide_unpack _). vm_compute. exact I.
Defined.

(** ** Collision and scoring *)

(** What the collision loop of [gameLoop] computes: the test runs over
    the object set of the tick and reads the x of the player the tick
    starts with. *)
Lemma gameLoop_gameOver_iff (now rnd : number) (s : State) :
  gameState s = Active ->
  (gameState (gameLoop now rnd s) = GameOver <->
   exists obj, In obj (objects (gameLoop now rnd s))
               /\ hits (PlayerState.x (player s)) obj = true).
Proof.
  intros HA. rewrite (gameLoop_active now rnd s HA). cbn [gameState objects].
  destruct (existsb (hits (PlayerState.x (player s))) (updatedObjects now rnd s))
    eqn:E.
  - split; [intros _ | reflexivity]. apply existsb_exists in E. exact E.
  - split; [discriminate |]. intros Hex. apply existsb_exists in Hex. congruence.
Qed.

(** C3 fails on the code, in both directions.  The tick tests the
    post-movement objects against the x the player had before the
    tick's movement step.  In [grazing] the tick ends in [GameOver]
    although no object of the post-movement set satisfies the four
    strict inequalities against the player's rectangle (x = 278).  In
    [closing] an object of the post-movement set satisfies all four
    against the player's rectangle (x = 262) and the tick leaves the
    game [Active]; the crash is found one tick later. *)
Theorem game_over_differs_from_overlap :
  (let s' := gameLoop 1700000003056 (1 # 2) grazing in
   gameState grazing = Active
   /\ PlayerState.x (player s') == 278
   /\ objects s' = [FallingObject.mk 1700000000000 250 739 OBJECT_SIZE]
   /\ gameState s' = GameOver
   /\ ~ (exists obj,
           In obj (objects s')
           /\ FallingObject.y obj + FallingObject.size obj > PLAYER_Y_POSITION
           /\ FallingObject.y obj < PLAYER_Y_POSITION + PLAYER_HEIGHT
           /\ FallingObject.x obj + FallingObject.size obj
              > PlayerState.x (player s')
           /\ FallingObject.x obj < PlayerState.x (player s') + PLAYER_WIDTH))
  /\ (let s' := gameLoop 1700000003056 (1 # 2) closing in
      gameState closing = Active
      /\ PlayerState.x (player s') == 262
      /\ objects s' = [FallingObject.mk 1700000000000 240 739 OBJECT_SIZE]
      /\ gameState s' = Active
      /\ (exists obj,
            In obj (objects s')
            /\ FallingObject.y obj + FallingObject.size obj > PLAYER_Y_POSITION
            /\ FallingObject.y obj < PLAYER_Y_POSITION + PLAYER_HEIGHT
            /\ FallingObject.x obj + FallingObject.size obj
               > PlayerState.x (player s')
            /\ FallingObject.x obj < PlayerState.x (player s') + PLAYER_WIDTH)
      /\ gameState (gameLoop 1700000003072 (1 # 2) s') = GameOver).
Proof.
  split; cbv zeta.
  - split; [reflexivity |]. split; [vm_compute; reflexivity |].
    split; [vm_compute; reflexivity |]. split; [vm_compute; reflexivity |].
    intros [obj [Hin H]].
    assert (E : objects (gameLoop 1700000003056 (1 # 2) grazing)
                = [FallingObject.mk 1700000000000 250 739 OBJECT_SIZE])
      by (vm_compute; reflexivity).
    assert (Ex : PlayerState.x (player (gameLoop 1700000003056 (1 # 2) grazing))
                 == 278) by (vm_compute; reflexivity).
    rewrite E in Hin. destruct Hin as [<- | []].
    cbn [FallingObject.x FallingObject.y FallingObject.size] in H.
    rewrite Ex in H. unfold OBJECT_SIZE in H. lra.
  - split; [reflexivity |]. split; [vm_compute; reflexivity |].
    split; [vm_compute; reflexivity |]. split; [vm_compute; reflexivity |].
    split; [| vm_compute; reflexivity].
    exists (FallingObject.mk 1700000000000 240 739 OBJECT_SIZE).
    assert (Ex : PlayerState.x (player (gameLoop 1700000003056 (1 # 2) closing))
                 == 262) by (vm_compute; reflexivity).
    split; [vm_compute; left; reflexivity |].
    cbn [FallingObject.x FallingObject.y FallingObject.size].
    rewrite Ex.
    unfold OBJECT_SIZE, PLAYER_Y_POSITION, PLAYER_HEIGHT, PLAYER_WIDTH,
      GAME_HEIGHT.
    repeat split; lra.
Qed.

(** C4. A tick run while [Active] adds exactly 1 to the score, also
    when that tick ends in [GameOver]; a tick run while [Ready], [Paused]
    or [GameOver] changes nothing, the score included. *)
Theorem score_once_per_active_tick (now rnd : number) (s : State) :
  (gameState s = Active -> score (gameLoop now rnd s) = score s + 1)
  /\ (gameState s = Active ->
      gameState (gameLoop now rnd s) = GameOver ->
      score (gameLoop now rnd s) = score s + 1)
  /\ (gameState s <> Active ->
      gameLoop now rnd s = s /\ score (gameLoop now rnd s) = score s).
Proof.
  assert (H : gameState s = Active -> score (gameLoop now rnd s) = score s + 1).
  { intros HA. rewrite (gameLoop_active now rnd s HA). reflexivity. }
  split; [exact H | split].
  - intros HA _. exact (H HA).
  - intros HN. rewrite (gameLoop_inactive now rnd s HN). split; reflexivity.
Qed.

Lemma score_once_per_active_tick_witness :
  (gameState grazing = Active
   /\ gameState (gameLoop 1700000003056 (1 # 2) grazing) = GameOver
   /\ score (gameLoop 1700000003056 (1 # 2) grazing) = score grazing + 1)
  /\ (gameState initialState <> Active
      /\ gameLoop 1700000003056 (1 # 2) initialState = initialState).
Proof.
  split.
  - split; [reflexivity |]. split; [vm_compute; reflexivity |].
    apply (proj1 (proj2 (score_once_per_active_tick
                           1700000003056 (1 # 2) grazing)));
      vm_compute; reflexivity.
  - split; [discriminate |].
    apply (proj2 (proj2 (score_once_per_active_tick
                           1700000003056 (1 # 2) initialState))).
    discriminate.
Defined.

(** C2 fails on the code.  The collision check of a tick does not see
    the position the same tick's movement step produces: it reads the
    [player.x] of the render the callback was built in, the position
    the previous tick left.  In [grazing] the movement step takes the
    player from 270 to 278; checked against 278 no object hits, checked
    against 270 one does, and the tick ends in [GameOver].  In
    [closing] the step takes the player from 270 to 262; checked against
    262 an object hits, checked against 270 none does, and the tick
    leaves the game [Active].  The outcome never depends on the keys
    held during the tick. *)
Theorem collision_check_reads_stale_player :
  (let s' := gameLoop 1700000003056 (1 # 2) grazing in
   gameState grazing = Active
   /\ PlayerState.x (player grazing) == 270
   /\ PlayerState.x (player s') == 278
   /\ existsb (hits (PlayerState.x (player s'))) (objects s') = false
   /\ existsb (hits (PlayerState.x (player grazing))) (objects s') = true
   /\ gameState s' = GameOver)
  /\ (let s' := gameLoop 1700000003056 (1 # 2) closing in
      gameState closing = Active
      /\ PlayerState.x (player closing) == 270
      /\ PlayerState.x (player s') == 262
      /\ existsb (hits (PlayerState.x (player s'))) (objects s') = true
      /\ existsb (hits (PlayerState.x (player closing))) (objects s') = false
      /\ gameState s' = Active)
  /\ (forall (now rnd : number) (s : State) (keys : gset string),
        gameState (gameLoop now rnd (setKeysPressed keys s))
        = gameState (gameLoop now rnd s)).
Proof.
  split; [| split].
  - vm_compute. repeat split; reflexivity.
  - vm_compute. repeat split; reflexivity.
  - intros now rnd s keys.
    destruct (GameState_eqb (gameState s) Active) eqn:E.
    + apply GameState_eqb_eq in E.
      rewrite (gameLoop_active now rnd s E).
      rewrite (gameLoop_active now rnd (setKeysPressed keys s) E).
      reflexivity.
    + assert (HN : gameState s <> Active)
        by (intros HA; rewrite HA in E; discriminate).
      rewrite (gameLoop_inactive now rnd s HN).
      rewrite (gameLoop_inactive now rnd (setKeysPressed keys s) HN).
      reflexivity.
Qed.

(** The same two divergences at the end of sessions played from the
    initial state, with objects spawned at 7/16 and 27/64 of the
    width: a [GameOver] without overlap, and an overlap that ends the
    game a tick late. *)
Lemma stale_player_in_play :
  (let s := run grazingSession initialState in
   let s' := step (Frame 1700000003056 (7 # 16)) s in
   gameState s = Active
   /\ gameState s' = GameOver
   /\ existsb (hits (PlayerState.x (player s'))) (objects s') = false)
  /\ (let s := run closingSession initialState in
      let s' := step (Frame 1700000003056 (27 # 64)) s in
      gameState s = Active
      /\ gameState s' = Active
      /\ existsb (hits (PlayerState.x (player s'))) (objects s') = true
      /\ gameState (step (Frame 1700000003072 (27 # 64)) s') = GameOver).
Proof. vm_compute. repeat split; reflexivity. Qed.

(** ** Spawning, falling and removal *)

Lemma onField_iff (obj : FallingObject.t) :
  onField obj = true <-> FallingObject.y obj < GAME_HEIGHT.
Proof. apply num_lt_iff. Qed.

Lemma fall_fields (obj : FallingObject.t) :
  FallingObject.y (fall obj) = FallingObject.y obj + OBJECT_SPEED
  /\ FallingObject.id (fall obj) = FallingObject.id obj
  /\ FallingObject.x (fall obj) = FallingObject.x obj
  /\ FallingObject.size (fall obj) = FallingObject.size obj
  /\ FallingObject.y obj < FallingObject.y (fall obj).
Proof.
  repeat split. cbn [fall FallingObject.y]. unfold OBJECT_SPEED. lra.
Qed.

Lemma fallen_y (n : nat) (obj : FallingObject.t) :
  FallingObject.y obj <= FallingObject.y (fallen n obj).
Proof.
  induction n as [| n IH]; cbn [fallen]; [lra |].
  destruct (fall_fields (fallen n obj)) as [_ [_ [_ [_ Hlt]]]]. lra.
Qed.

Lemma in_updatedObjects (now rnd : number) (s : State) (obj' : FallingObject.t) :
  In obj' (updatedObjects now rnd s) <->
  FallingObject.y obj' < GAME_HEIGHT
  /\ exists obj, obj' = fall obj /\ In obj (afterSpawn now rnd s).
Proof.
  unfold updatedObjects. rewrite filter_In, in_map_iff, onField_iff.
  split.
  - intros [[obj [E Hin]] Hy]. split; [exact Hy |]. exists obj. auto.
  - intros [Hy [obj [E Hin]]]. split; [| exact Hy]. exists obj. auto.
Qed.

Lemma in_afterSpawn (now rnd : number) (s : State) (obj : FallingObject.t) :
  In obj (afterSpawn now rnd s) ->
  In obj (objects s) \/ obj = newObject now rnd.
Proof.
  unfold afterSpawn. destruct (spawnDue now s); [| auto].
  rewrite in_app_iff. cbn [In]. intuition.
Qed.

Lemma objects_in_afterSpawn (now rnd : number) (s : State) (obj : FallingObject.t) :
  In obj (objects s) -> In obj (afterSpawn now rnd s).
Proof.
  unfold afterSpawn. destruct (spawnDue now s); [| auto].
  rewrite in_app_iff. auto.
Qed.

Lemma gameLoop_onFieldAll (now rnd : number) (s : State) :
  onFieldAll s -> onFieldAll (gameLoop now rnd s).
Proof.
  intros Hs. destruct (GameState_eqb (gameState s) Active) eqn:E.
  - apply GameState_eqb_eq in E. rewrite (gameLoop_active now rnd s E).
    intros obj Hin. cbn [objects] in Hin.
    apply in_updatedObjects in Hin. tauto.
  - rewrite gameLoop_inactive; [exact Hs |].
    intros HA. rewrite HA in E. discriminate.
Qed.

Lemma objects_cancelAnimationFrame (h : positive) (s : State) :
  objects (cancelAnimationFrame h s) = objects s.
Proof. reflexivity. Qed.

Lemma objects_cancelComboAnimation (s : State) :
  objects (cancelComboAnimation s) = objects s.
Proof. unfold cancelComboAnimation. destruct (comboAnimationRef s); reflexivity. Qed.

Lemma objects_cleanupCombo (s : State) : objects (cleanupCombo s) = objects s.
Proof.
  unfold cleanupCombo. cbn [setPauseComboProgress objects].
  rewrite objects_cancelComboAnimation. reflexivity.
Qed.

Lemma objects_handlePauseCombo (now : number) (s : State) :
  objects (handlePauseCombo now s) = objects s.
Proof.
  unfold handlePauseCombo.
  destruct (negb (GameState_eqb (gameState s) Active)
            && negb (GameState_eqb (gameState s) Paused)); [reflexivity |].
  destruct (num_lt (now - lastComboPressTime s) PAUSE_COMBO_TIMEOUT).
  - rewrite objects_cleanupCombo.
    destruct (GameState_eqb (gameState s) Active); [reflexivity |].
    destruct (GameState_eqb (gameState s) Paused); reflexivity.
  - cbv zeta. unfold requestAnimationFrame.
    cbn [setComboAnimationRef objects].
    rewrite objects_cancelComboAnimation. reflexivity.
Qed.

Lemma objects_animateComboBar (now : number) (s : State) :
  objects (animateComboBar now s) = objects s.
Proof.
  unfold animateComboBar. cbv zeta.
  destruct (num_gt _ 0); reflexivity.
Qed.

Lemma dispatch_onFieldAll (e : Event) (s : State) :
  onFieldAll s -> onFieldAll (dispatch e s).
Proof.
  intros Hs. destruct e as [now rnd | h now | key rep now | key |];
    cbn [dispatch].
  - apply gameLoop_onFieldAll. exact Hs.
  - destruct (existsb (Pos.eqb h) (rafPending s)); [| exact Hs].
    unfold onFieldAll. rewrite objects_animateComboBar. exact Hs.
  - unfold handleKeyDown. destruct rep; [exact Hs |]. cbv zeta.
    match goal with |- context [if ?c then _ else _] => destruct c end;
      unfold onFieldAll; rewrite ?objects_handlePauseCombo; exact Hs.
  - exact Hs.
  - unfold renderContent.
    destruct (gameState s) eqn:E; cbn [runHandler onButtonClick];
      try exact Hs; try (intros obj []).
    unfold resumeGame. rewrite E. cbn [GameState_eqb].
    unfold onFieldAll. cbn [setGameState objects].
    rewrite objects_cleanupCombo. exact Hs.
Qed.

Lemma step_onFieldAll (e : Event) (s : State) :
  onFieldAll s -> onFieldAll (step e s).
Proof.
  intros Hs. unfold step, commit.
  destruct (GameState_eqb (gameState s) (gameState (dispatch e s))).
  - apply dispatch_onFieldAll. exact Hs.
  - unfold onFieldAll. rewrite objects_cancelComboAnimation.
    apply dispatch_onFieldAll. exact Hs.
Qed.

Lemma run_onFieldAll (es : list Event) (s : State) :
  onFieldAll s -> onFieldAll (run es s).
Proof.
  revert s. induction es as [| e es IH]; intros s Hs; [exact Hs |].
  apply (IH (step e s)). apply step_onFieldAll. exact Hs.
Qed.

(** C6. On an [Active] tick every object falls by exactly
    [OBJECT_SPEED], its id, x and size untouched, so its y grows
    strictly; an object whose new y is at or past [GAME_HEIGHT] is absent
    from the tick's result and the others are all present; every object
    of the result has [y < GAME_HEIGHT] and is the fallen image of an
    object of the old set or of the one just spawned; from then on no
    state ever shows an object with [y >= GAME_HEIGHT], and a removed
    object, however far it would have fallen, is never in the set
    again.  The same bound holds in every state reachable from the
    initial one. *)
Theorem objects_fall_and_leave :
  (forall s : State, reachable s -> onFieldAll s)
  /\ (forall (now rnd : number) (s : State),
        gameState s = Active ->
        objects (gameLoop now rnd s)
        = List.filter onField (List.map fall (afterSpawn now rnd s))
        /\ (forall obj,
              FallingObject.y (fall obj) = FallingObject.y obj + OBJECT_SPEED
              /\ FallingObject.id (fall obj) = FallingObject.id obj
              /\ FallingObject.x (fall obj) = FallingObject.x obj
              /\ FallingObject.size (fall obj) = FallingObject.size obj
              /\ FallingObject.y obj < FallingObject.y (fall obj))
        /\ (forall obj,
              In obj (objects s) ->
              FallingObject.y obj + OBJECT_SPEED < GAME_HEIGHT ->
              In (fall obj) (objects (gameLoop now rnd s)))
        /\ (forall obj,
              In obj (objects s) ->
              GAME_HEIGHT <= FallingObject.y obj + OBJECT_SPEED ->
              ~ In (fall obj) (objects (gameLoop now rnd s)))
        /\ (forall obj',
              In obj' (objects (gameLoop now rnd s)) ->
              FallingObject.y obj' < GAME_HEIGHT
              /\ exists obj,
                   obj' = fall obj
                   /\ (In obj (objects s) \/ obj = newObject now rnd))
        /\ (forall es, onFieldAll (run es (gameLoop now rnd s)))
        /\ (forall obj n es,
              In obj (objects s) ->
              GAME_HEIGHT <= FallingObject.y obj + OBJECT_SPEED ->
              ~ In (fallen n (fall obj))
                   (objects (run es (gameLoop now rnd s))))).
Proof.
  split.
  - intros s [es ->]. apply run_onFieldAll. intros obj [].
  - intros now rnd s HA.
    assert (Hafter : onFieldAll (gameLoop now rnd s)).
    { rewrite (gameLoop_active now rnd s HA). intros obj Hin.
      cbn [objects] in Hin. apply in_updatedObjects in Hin. tauto. }
    rewrite (gameLoop_active now rnd s HA) in *. cbn [objects].
    split; [reflexivity |]. split; [exact fall_fields |].
    split; [| split; [| split; [| split]]].
    + intros obj Hin Hy. apply in_updatedObjects. split.
      * cbn [fall FallingObject.y]. exact Hy.
      * exists obj. split; [reflexivity |].
        apply objects_in_afterSpawn. exact Hin.
    + intros obj Hin Hy Hin'. apply in_updatedObjects in Hin'.
      destruct Hin' as [Hlt _]. cbn [fall FallingObject.y] in Hlt. lra.
    + intros obj' Hin. apply in_updatedObjects in Hin.
      destruct Hin as [Hy [obj [E Hobj]]]. split; [exact Hy |].
      exists obj. split; [exact E |].
      apply in_afterSpawn. exact Hobj.
    + intros es. apply run_onFieldAll. exact Hafter.
    + intros obj n es Hin Hy Hin'.
      apply (run_onFieldAll es _ Hafter) in Hin'.
      pose proof (fallen_y n (fall obj)) as Hn.
      cbn [fall FallingObject.y] in Hn. lra.
Qed.

Lemma objects_fall_and_leave_witness :
  gameState grazing = Active
  /\ objects (gameLoop 1700000003056 (1 # 2) grazing)
     = List.filter onField
         (List.map fall (afterSpawn 1700000003056 (1 # 2) grazing))
  /\ onFieldAll (gameLoop 1700000003056 (1 # 2) grazing).
Proof.
  split; [reflexivity |].
  destruct (proj2 objects_fall_and_leave
              1700000003056 (1 # 2) grazing eq_refl)
    as [Hobjs [_ [_ [_ [_ [Hrun _]]]]]].
  split; [exact Hobjs | exact (Hrun [])].
Defined.

Lemma newObject_x_range (now rnd : number) :
  0 <= rnd -> rnd < 1 ->
  0 <= FallingObject.x (newObject now rnd)
  /\ FallingObject.x (newObject now rnd) <= GAME_WIDTH - OBJECT_SIZE.
Proof.
  intros H0 H1. cbn [newObject FallingObject.x].
  unfold GAME_WIDTH, OBJECT_SIZE. split; lra.
Qed.

(** C8. On an [Active] tick, when [now - lastObjectSpawn] exceeds
    [OBJECT_SPAWN_INTERVAL] exactly one object is created: the object set
    is the old one, moved and culled, followed by the new object (already
    moved once by the same tick), and [lastObjectSpawn] becomes [now];
    otherwise no object is created.  The object is created with
    [y = -OBJECT_SIZE], [x] in [[0, GAME_WIDTH - OBJECT_SIZE]]
    ([Math.random()] being in [[0, 1)]) and [id = now]. *)
Theorem spawn_rule (now rnd : number) (s : State) :
  gameState s = Active ->
  0 <= rnd -> rnd < 1 ->
  (now - lastObjectSpawn s > OBJECT_SPAWN_INTERVAL ->
     objects (gameLoop now rnd s)
     = List.filter onField (List.map fall (objects s))
       ++ [fall (newObject now rnd)]
     /\ lastObjectSpawn (gameLoop now rnd s) = now)
  /\ (~ now - lastObjectSpawn s > OBJECT_SPAWN_INTERVAL ->
      objects (gameLoop now rnd s)
      = List.filter onField (List.map fall (objects s))
      /\ lastObjectSpawn (gameLoop now rnd s) = lastObjectSpawn s)
  /\ FallingObject.y (newObject now rnd) = - OBJECT_SIZE
  /\ 0 <= FallingObject.x (newObject now rnd)
  /\ FallingObject.x (newObject now rnd) <= GAME_WIDTH - OBJECT_SIZE
  /\ FallingObject.id (newObject now rnd) = now
  /\ FallingObject.size (newObject now rnd) = OBJECT_SIZE.
Proof.
  intros HA H0 H1. rewrite (gameLoop_active now rnd s HA).
  cbn [objects lastObjectSpawn]. unfold updatedObjects, afterSpawn, spawnDue.
  split; [| split].
  - intros Hdue. apply num_gt_iff in Hdue. rewrite Hdue.
    split; [| reflexivity].
    rewrite List.map_app, List.filter_app. reflexivity.
  - intros Hnot.
    destruct (num_gt (now - lastObjectSpawn s) OBJECT_SPAWN_INTERVAL) eqn:E.
    + apply num_gt_iff in E. contradiction.
    + split; reflexivity.
  - destruct (newObject_x_range now rnd H0 H1) as [Hlo Hhi].
    repeat split; assumption.
Qed.

Lemma spawn_rule_witness :
  objects (gameLoop 1700000003600 (1 # 2) grazing)
  = List.filter onField (List.map fall (objects grazing))
    ++ [fall (newObject 1700000003600 (1 # 2))]
  /\ lastObjectSpawn (gameLoop 1700000003600 (1 # 2) grazing)
     = 1700000003600.
Proof.
  apply (spawn_rule 1700000003600 (1 # 2) grazing).
  - reflexivity.
  - vm_compute. discriminate.
  - vm_compute. reflexivity.
  - vm_compute. reflexivity.
Defined.

(** ** Invariants of play *)

(** Unfold the handlers down to record constructors. *)
Ltac open_handlers :=
  cbv beta iota zeta delta
    [handlePauseCombo cleanupCombo cancelComboAnimation animateComboBar
     requestAnimationFrame cancelAnimationFrame resumeGame resetGame
     handleKeyDown handleKeyUp runHandler
     setGameState setPlayer setObjects setScore setPauseComboProgress
     setKeysPressed setLastObjectSpawn setLastComboPressTime
     setComboStartTimeRef setComboAnimationRef
     gameState player objects score pauseComboProgress keysPressed
     lastObjectSpawn lastComboPressTime comboStartTimeRef comboAnimationRef
     rafNext rafPending].

Lemma player_handlePauseCombo (now : number) (s : State) :
  player (handlePauseCombo now s) = player s.
Proof. destruct s. open_handlers. by_cases. Qed.

Lemma player_animateComboBar (now : number) (s : State) :
  player (animateComboBar now s) = player s.
Proof. destruct s. open_handlers. by_cases. Qed.

Lemma player_cancelComboAnimation (s : State) :
  player (cancelComboAnimation s) = player s.
Proof. destruct s. open_handlers. by_cases. Qed.

Lemma player_dispatch (e : Event) (s : State) :
  player (dispatch e s) = player s
  \/ player (dispatch e s) = movePlayer (keysPressed s) (player s)
  \/ player (dispatch e s) = initialPlayer.
Proof.
  destruct e as [now rnd | h now | key rep now | key |]; cbn [dispatch].
  - destruct (GameState_eqb (gameState s) Active) eqn:E.
    + apply GameState_eqb_eq in E. rewrite (gameLoop_active now rnd s E).
      right. left. reflexivity.
    + left. unfold gameLoop. rewrite E. reflexivity.
  - left. destruct (existsb (Pos.eqb h) (rafPending s)); [| reflexivity].
    rewrite player_animateComboBar. reflexivity.
  - left. unfold handleKeyDown. destruct rep; [reflexivity |]. cbv zeta.
    match goal with |- context [if ?c then _ else _] => destruct c end;
      rewrite ?player_handlePauseCombo; reflexivity.
  - left. reflexivity.
  - unfold renderContent. destruct (gameState s) eqn:E;
      cbn [runHandler onButtonClick].
    + right. right. reflexivity.
    + left. reflexivity.
    + left. destruct s. open_handlers. by_cases.
    + right. right. reflexivity.
Qed.

Lemma initialPlayer_onGrid : playerOnGrid initialPlayer.
Proof. exists 270%Z. split; [reflexivity | lia]. Qed.

(** In every state of a session the player is on the integer grid
    between 0 and 540. *)
Lemma reachable_playerOnGrid (s : State) :
  reachable s -> playerOnGrid (player s).
Proof.
  intros [es ->].
  enough (H : forall s0, playerOnGrid (player s0) ->
                         playerOnGrid (player (run es s0)))
    by (apply H; exact initialPlayer_onGrid).
  induction es as [| e es IH]; intros s0 H0; [exact H0 |].
  apply (IH (step e s0)). unfold step, commit.
  assert (Hd : playerOnGrid (player (dispatch e s0))).
  { destruct (player_dispatch e s0) as [-> | [-> | ->]].
    - exact H0.
    - apply movePlayer_onGrid. exact H0.
    - exact initialPlayer_onGrid. }
  destruct (GameState_eqb (gameState s0) (gameState (dispatch e s0)));
    rewrite ?player_cancelComboAnimation; exact Hd.
Qed.

Lemma filter_none {A : Type} (f : A -> bool) (l : list A) :
  (forall a, In a l -> f a = false) -> List.filter f l = [].
Proof.
  induction l as [| a l IH]; intros H; [reflexivity |].
  cbn [List.filter]. rewrite (H a (or_introl eq_refl)).
  apply IH. intros b Hb. apply H. right. exact Hb.
Qed.

(** Under [oneComboFrame], cancelling the frame [comboAnimationRef]
    holds leaves no frame pending. *)
Lemma cancelComboAnimation_none (s : State) :
  oneComboFrame s -> rafPending (cancelComboAnimation s) = [].
Proof.
  intros H. unfold cancelComboAnimation.
  destruct (comboAnimationRef s) as [h |] eqn:E.
  - cbn [cancelAnimationFrame rafPending]. apply filter_none.
    intros h' Hin. apply H in Hin. rewrite E in Hin. injection Hin as ->.
    rewrite Pos.eqb_refl. reflexivity.
  - destruct (rafPending s) as [| h l] eqn:El; [reflexivity |].
    specialize (H h). rewrite El in H.
    specialize (H (or_introl eq_refl)). congruence.
Qed.

Lemma cancelAnimationFrame_pending_none (h : positive) (s : State) :
  oneComboFrame s -> In h (rafPending s) ->
  rafPending (cancelAnimationFrame h s) = [].
Proof.
  intros H Hin. pose proof (H h Hin) as Eh.
  pose proof (cancelComboAnimation_none s H) as Hc.
  unfold cancelComboAnimation in Hc. rewrite Eh in Hc. exact Hc.
Qed.

Lemma oneComboFrame_nil (s : State) : rafPending s = [] -> oneComboFrame s.
Proof. intros E h Hin. rewrite E in Hin. destruct Hin. Qed.

Lemma oneComboFrame_cancelComboAnimation (s : State) :
  oneComboFrame s -> oneComboFrame (cancelComboAnimation s).
Proof.
  intros H. apply oneComboFrame_nil. apply cancelComboAnimation_none. exact H.
Qed.

Lemma oneComboFrame_cleanupCombo (s : State) :
  oneComboFrame s -> oneComboFrame (cleanupCombo s).
Proof.
  intros H. apply oneComboFrame_nil. unfold cleanupCombo.
  cbn [setPauseComboProgress rafPending].
  apply (cancelComboAnimation_none (setLastComboPressTime 0 s)). exact H.
Qed.

Lemma oneComboFrame_handlePauseCombo (now : number) (s : State) :
  oneComboFrame s -> oneComboFrame (handlePauseCombo now s).
Proof.
  intros H. unfold handlePauseCombo.
  destruct (negb (GameState_eqb (gameState s) Active)
            && negb (GameState_eqb (gameState s) Paused)); [exact H |].
  destruct (num_lt (now - lastComboPressTime s) PAUSE_COMBO_TIMEOUT).
  - apply oneComboFrame_cleanupCombo.
    destruct (GameState_eqb (gameState s) Active); [exact H |].
    destruct (GameState_eqb (gameState s) Paused); exact H.
  - cbv zeta.
    pose proof (cancelComboAnimation_none
                  (setComboStartTimeRef now (setLastComboPressTime now s)) H)
      as Hc.
    unfold requestAnimationFrame.
    cbn [setComboAnimationRef rafPending comboAnimationRef].
    intros h Hin. cbn [rafPending comboAnimationRef] in *.
    rewrite Hc in Hin. destruct Hin as [<- | []]. reflexivity.
Qed.

Lemma oneComboFrame_animateComboBar (now : number) (s : State) :
  rafPending s = [] -> oneComboFrame (animateComboBar now s).
Proof.
  intros E. unfold animateComboBar. cbv zeta.
  destruct (num_gt _ 0).
  - unfold requestAnimationFrame. intros h Hin.
    cbn [setComboAnimationRef setPauseComboProgress rafPending
         comboAnimationRef rafNext] in *.
    rewrite E in Hin. destruct Hin as [<- | []]. reflexivity.
  - apply oneComboFrame_nil. exact E.
Qed.

Lemma oneComboFrame_dispatch (e : Event) (s : State) :
  oneComboFrame s -> oneComboFrame (dispatch e s).
Proof.
  intros H. destruct e as [now rnd | h now | key rep now | key |];
    cbn [dispatch].
  - destruct (GameState_eqb (gameState s) Active) eqn:E.
    + apply GameState_eqb_eq in E. rewrite (gameLoop_active now rnd s E).
      exact H.
    + unfold gameLoop. rewrite E. exact H.
  - destruct (existsb (Pos.eqb h) (rafPending s)) eqn:E; [| exact H].
    apply oneComboFrame_animateComboBar.
    apply cancelAnimationFrame_pending_none; [exact H |].
    apply existsb_exists in E. destruct E as [h' [Hin Eq]].
    apply Pos.eqb_eq in Eq. subst h'. exact Hin.
  - unfold handleKeyDown. destruct rep; [exact H |]. cbv zeta.
    match goal with |- context [if ?c then _ else _] => destruct c end;
      [apply oneComboFrame_handlePauseCombo |]; exact H.
  - exact H.
  - unfold renderContent. destruct (gameState s) eqn:E;
      cbn [runHandler onButtonClick]; try exact H.
    unfold resumeGame. rewrite E. cbn [GameState_eqb].
    apply (oneComboFrame_cleanupCombo (setKeysPressed ∅ s)). exact H.
Qed.

(** In every state of a session at most one combo frame is pending. *)
Lemma reachable_oneComboFrame (s : State) : reachable s -> oneComboFrame s.
Proof.
  intros [es ->].
  enough (H : forall s0, oneComboFrame s0 -> oneComboFrame (run es s0))
    by (apply H; intros h []).
  induction es as [| e es IH]; intros s0 H0; [exact H0 |].
  apply (IH (step e s0)). unfold step, commit.
  destruct (GameState_eqb (gameState s0) (gameState (dispatch e s0))).
  - apply oneComboFrame_dispatch. exact H0.
  - apply oneComboFrame_cancelComboAnimation.
    apply oneComboFrame_dispatch. exact H0.
Qed.

(** ** The pause gesture *)

(** A key press after which both combo keys are held runs
    [handlePauseCombo] on the state with the key recorded. *)
Lemma qualifying_press_runs_handler
    (key : string) (now : number) (s : State) :
  has "ArrowLeft" ({[ key ]} ∪ keysPressed s) = true ->
  has "ArrowRight" ({[ key ]} ∪ keysPressed s) = true ->
  handleKeyDown key false now s
  = handlePauseCombo now (setKeysPressed ({[ key ]} ∪ keysPressed s) s).
Proof.
  intros HL HR. unfold handleKeyDown. cbn [setKeysPressed keysPressed].
  rewrite HL, HR. reflexivity.
Qed.

Lemma in_rafPending_cancel (h h' : positive) (s : State) :
  In h' (rafPending (cancelAnimationFrame h s)) <->
  In h' (rafPending s) /\ h' <> h.
Proof.
  cbn [cancelAnimationFrame rafPending]. rewrite filter_In, negb_true_iff.
  rewrite Pos.eqb_neq. reflexivity.
Qed.

Lemma toggle_leaves_no_frame (now : number) (s : State) :
  gameState s = Active \/ gameState s = Paused ->
  now - lastComboPressTime s < PAUSE_COMBO_TIMEOUT ->
  oneComboFrame s ->
  rafPending (handlePauseCombo now s) = [].
Proof.
  intros Hgs Hlt H. apply num_lt_iff in Hlt. unfold handlePauseCombo.
  rewrite Hlt.
  destruct Hgs as [E | E]; rewrite E; cbn [GameState_eqb negb andb];
    unfold cleanupCombo; cbn [setPauseComboProgress rafPending];
    apply (cancelComboAnimation_none
             (setLastComboPressTime 0 (setGameState _ s)));
    exact H.
Qed.

(** C7. [handlePauseCombo] is what a qualifying press runs.  While
    [Active] or [Paused]: when [now - lastComboPressTime <
    PAUSE_COMBO_TIMEOUT] it toggles the game state, clears
    [lastComboPressTime] (the machine is idle), sets the progress to 0
    and cancels the pending frame (in a session no frame is left
    pending), leaving player, objects, score and keys alone; otherwise it arms the combo,
    [lastComboPressTime = comboStartTimeRef = now], requests a frame and
    leaves the game state alone.  With a wall-clock [now] of at least
    [PAUSE_COMBO_TIMEOUT], the first case only arises when a first press
    is recorded, that is, on a second press.  While [Ready] or [GameOver]
    the handler returns the state as it is. *)
Theorem pause_combo (now : number) (s : State) :
  (forall key,
      has "ArrowLeft" ({[ key ]} ∪ keysPressed s) = true ->
      has "ArrowRight" ({[ key ]} ∪ keysPressed s) = true ->
      handleKeyDown key false now s
      = handlePauseCombo now (setKeysPressed ({[ key ]} ∪ keysPressed s) s))
  /\ (gameState s = Active \/ gameState s = Paused ->
      now - lastComboPressTime s < PAUSE_COMBO_TIMEOUT ->
      (gameState s = Active -> gameState (handlePauseCombo now s) = Paused)
      /\ (gameState s = Paused -> gameState (handlePauseCombo now s) = Active)
      /\ comboIdle (handlePauseCombo now s)
      /\ pauseComboProgress (handlePauseCombo now s) = 0
      /\ (forall h, comboAnimationRef s = Some h ->
                    ~ In h (rafPending (handlePauseCombo now s)))
      /\ player (handlePauseCombo now s) = player s
      /\ objects (handlePauseCombo now s) = objects s
      /\ score (handlePauseCombo now s) = score s
      /\ keysPressed (handlePauseCombo now s) = keysPressed s)
  /\ (gameState s = Active \/ gameState s = Paused ->
      ~ now - lastComboPressTime s < PAUSE_COMBO_TIMEOUT ->
      gameState (handlePauseCombo now s) = gameState s
      /\ lastComboPressTime (handlePauseCombo now s) = now
      /\ comboStartTimeRef (handlePauseCombo now s) = now
      /\ comboAnimationRef (handlePauseCombo now s) = Some (rafNext s)
      /\ In (rafNext s) (rafPending (handlePauseCombo now s))
      /\ pauseComboProgress (handlePauseCombo now s) = pauseComboProgress s
      /\ player (handlePauseCombo now s) = player s
      /\ objects (handlePauseCombo now s) = objects s
      /\ score (handlePauseCombo now s) = score s
      /\ keysPressed (handlePauseCombo now s) = keysPressed s)
  /\ (PAUSE_COMBO_TIMEOUT <= now ->
      now - lastComboPressTime s < PAUSE_COMBO_TIMEOUT ->
      ~ comboIdle s)
  /\ (gameState s = Ready \/ gameState s = GameOver ->
      handlePauseCombo now s = s)
  /\ (gameState s = Active \/ gameState s = Paused ->
      now - lastComboPressTime s < PAUSE_COMBO_TIMEOUT ->
      reachable s ->
      rafPending (handlePauseCombo now s) = []).
Proof.
  split; [| split; [| split; [| split; [| split]]]];
    [| | | | | intros Hgs Hlt Hr;
               exact (toggle_leaves_no_frame now s Hgs Hlt
                        (reachable_oneComboFrame s Hr))].
  - intros key. apply qualifying_press_runs_handler.
  - intros Hgs Hlt. apply num_lt_iff in Hlt. unfold handlePauseCombo.
    rewrite Hlt.
    destruct s as [gs p objs sc pr keys lo lc cs ar rn rp].
    cbn [gameState] in *. unfold comboIdle.
    destruct Hgs as [-> | ->]; cbn [GameState_eqb negb andb];
      unfold cleanupCombo, cancelComboAnimation;
      cbn [setGameState setLastComboPressTime comboAnimationRef gameState
           player objects score pauseComboProgress keysPressed
           lastObjectSpawn lastComboPressTime comboStartTimeRef rafNext
           rafPending];
      (destruct ar as [h0 |];
       [ repeat split; try discriminate;
         intros h Hh; injection Hh as ->;
         cbn [setPauseComboProgress rafPending];
         intros Hin; apply in_rafPending_cancel in Hin;
         destruct Hin as [_ Hne]; apply Hne; reflexivity
       | repeat split; discriminate ]).
  - intros Hgs Hnot. unfold handlePauseCombo.
    destruct (num_lt (now - lastComboPressTime s) PAUSE_COMBO_TIMEOUT) eqn:E.
    { apply num_lt_iff in E. contradiction. }
    destruct s as [gs p objs sc pr keys lo lc cs ar rn rp].
    cbn [gameState] in *.
    destruct Hgs as [-> | ->]; cbn [GameState_eqb negb andb];
      unfold cancelComboAnimation;
      cbn [setComboStartTimeRef setLastComboPressTime comboAnimationRef
           gameState player objects score pauseComboProgress keysPressed
           lastObjectSpawn lastComboPressTime comboStartTimeRef rafNext
           rafPending];
      destruct ar as [h0 |]; cbn; repeat split; left; reflexivity.
  - intros Hnow Hlt Hidle. unfold comboIdle in Hidle.
    rewrite Hidle in Hlt. unfold PAUSE_COMBO_TIMEOUT in *. lra.
  - intros Hgs. unfold handlePauseCombo.
    destruct Hgs as [-> | ->]; reflexivity.
Qed.

Lemma pause_combo_witness :
  (gameState armedState = Active
   /\ gameState (handlePauseCombo 1700000004000 armedState) = Paused
   /\ comboIdle (handlePauseCombo 1700000004000 armedState))
  /\ (gameState (step Click initialState) = Active
      /\ lastComboPressTime
           (handlePauseCombo 1700000004000 (step Click initialState))
         = 1700000004000)
  /\ ~ comboIdle armedState
  /\ handlePauseCombo 1700000004000 initialState = initialState.
Proof.
  split; [| split; [| split]].
  - destruct (proj1 (proj2 (pause_combo 1700000004000 armedState)))
      as [HA [_ [Hidle _]]].
    + left. vm_compute. reflexivity.
    + vm_compute. reflexivity.
    + split; [vm_compute; reflexivity |]. split; [apply HA; vm_compute; reflexivity | exact Hidle].
  - split; [vm_compute; reflexivity |].
    apply (proj1 (proj2 (proj2
             (pause_combo 1700000004000 (step Click initialState))))).
    + left. vm_compute. reflexivity.
    + vm_compute. discriminate.
  - apply (proj1 (proj2 (proj2 (proj2
             (pause_combo 1700000004000 armedState))))).
    + vm_compute. discriminate.
    + vm_compute. reflexivity.
  - apply (proj1 (proj2 (proj2 (proj2 (proj2
             (pause_combo 1700000004000 initialState)))))).
    left. vm_compute. reflexivity.
Defined.

(** ** Start, restart and resume *)

(** C1 fails on the code.  [resetGame] never touches the combo state,
    while its sibling [resumeGame] calls [cleanupCombo].  In the session
    [armedCrashSession] the combo is armed when the crash ends the game;
    the Restart button then starts a new game in which
    [lastComboPressTime] is still the time of that press and the progress
    bar still shows 49.85, and the first qualifying press of the new game
    pauses it. *)
Theorem restart_keeps_combo_state :
  (forall s : State,
      lastComboPressTime (resetGame s) = lastComboPressTime s
      /\ pauseComboProgress (resetGame s) = pauseComboProgress s
      /\ comboStartTimeRef (resetGame s) = comboStartTimeRef s
      /\ comboAnimationRef (resetGame s) = comboAnimationRef s
      /\ rafPending (resetGame s) = rafPending s)
  /\ (let over := run armedCrashSession initialState in
      let again := step Click over in
      gameState over = GameOver
      /\ dispatch Click over = resetGame over
      /\ gameState again = Active
      /\ lastComboPressTime again == 1700000003044
      /\ ~ comboIdle again
      /\ pauseComboProgress again == 997 # 20
      /\ ~ pauseComboProgress again == 0
      /\ gameState
           (run [KeyDown "ArrowLeft" false 1700000004000;
                 KeyDown "ArrowRight" false 1700000004010] again)
         = Paused).
Proof.
  split.
  - intros s. repeat split.
  - vm_compute. repeat split; try reflexivity; discriminate.
Qed.




(** * Further properties *)

(** ** Resume *)

(** X1. [resumeGame] does nothing unless the game is [Paused].  From
    [Paused] it enters [Active] with no key held, the combo idle and the
    progress at 0, and leaves player, objects, score and
    [lastObjectSpawn] as they are; in a session no combo frame is left
    pending. *)
Theorem resume_only_from_paused (s : State) :
  (gameState s <> Paused -> resumeGame s = s)
  /\ (gameState s = Paused ->
      gameState (resumeGame s) = Active
      /\ keysPressed (resumeGame s) = ∅
      /\ lastComboPressTime (resumeGame s) = 0
      /\ pauseComboProgress (resumeGame s) = 0
      /\ player (resumeGame s) = player s
      /\ objects (resumeGame s) = objects s
      /\ score (resumeGame s) = score s
      /\ lastObjectSpawn (resumeGame s) = lastObjectSpawn s
      /\ dispatch Click s = resumeGame s
      /\ (reachable s -> rafPending (resumeGame s) = [])).
Proof.
  split.
  - intros HN. unfold resumeGame.
    destruct (GameState_eqb (gameState s) Paused) eqn:E; [| reflexivity].
    apply GameState_eqb_eq in E. contradiction.
  - intros HP. unfold resumeGame. rewrite HP. cbn [GameState_eqb].
    split; [reflexivity |].
    split; [destruct s; open_handlers; by_cases |].
    split; [destruct s; open_handlers; by_cases |].
    split; [reflexivity |].
    split; [destruct s; open_handlers; by_cases |].
    split; [destruct s; open_handlers; by_cases |].
    split; [destruct s; open_handlers; by_cases |].
    split; [destruct s; open_handlers; by_cases |].
    split.
    + unfold dispatch, renderContent. rewrite HP.
      cbn [runHandler onButtonClick]. unfold resumeGame. rewrite HP.
      reflexivity.
    + intros Hr. unfold cleanupCombo.
      cbn [setGameState setPauseComboProgress rafPending].
      apply (cancelComboAnimation_none
               (setLastComboPressTime 0 (setKeysPressed ∅ s))).
      exact (reachable_oneComboFrame s Hr).
Qed.

Lemma resume_only_from_paused_witness :
  (gameState pausedGame = Paused
   /\ gameState (resumeGame pausedGame) = Active
   /\ keysPressed (resumeGame pausedGame) = ∅)
  /\ resumeGame initialState = initialState.
Proof.
  split.
  - split; [vm_compute; reflexivity |].
    destruct (proj2 (resume_only_from_paused pausedGame)
                ltac:(vm_compute; reflexivity)) as [HA [HK _]].
    split; [exact HA | exact HK].
  - apply (proj1 (resume_only_from_paused initialState)). discriminate.
Defined.

(** ** The combo bar *)

Lemma progress_value (now start : number) :
  let elapsed := now - start in
  let progress := Qmax 0 (50 * (1 - elapsed / PAUSE_COMBO_TIMEOUT)) in
  0 <= progress
  /\ (elapsed < PAUSE_COMBO_TIMEOUT ->
      progress == 50 * (1 - elapsed / PAUSE_COMBO_TIMEOUT) /\ 0 < progress)
  /\ (PAUSE_COMBO_TIMEOUT <= elapsed -> progress == 0)
  /\ (0 <= elapsed -> progress <= 50).
Proof.
  cbv zeta. unfold PAUSE_COMBO_TIMEOUT.
  assert (Hq : (now - start) / 4000 * 4000 == now - start) by (field; discriminate).
  set (q := (now - start) / 4000) in *.
  destruct (Q.max_spec 0 (50 * (1 - q))) as [[H1 H2] | [H1 H2]];
    rewrite H2; repeat split; intros; lra.
Qed.

Lemma animateComboBar_progress (now : number) (s : State) :
  pauseComboProgress (animateComboBar now s)
  = Qmax 0 (50 * (1 - (now - comboStartTimeRef s) / PAUSE_COMBO_TIMEOUT)).
Proof. destruct s. open_handlers. by_cases. Qed.

Lemma PauseComboProgressBar_shown (progress : number) :
  (0 < progress -> PauseComboProgressBar progress = Some progress)
  /\ (progress <= 0 -> PauseComboProgressBar progress = None).
Proof.
  unfold PauseComboProgressBar. split; intros H.
  - destruct (Qle_bool progress 0) eqn:E; [| reflexivity].
    apply Qle_bool_iff in E. lra.
  - apply Qle_bool_iff in H. rewrite H. reflexivity.
Qed.

(** X2. One frame of the combo bar, with
    [elapsed = now - comboStartTimeRef].  The progress it stores is
    never negative, at most 50 once [elapsed >= 0], and never larger at
    a later [now].  While [elapsed < PAUSE_COMBO_TIMEOUT] the progress
    is positive, the bar is drawn, exactly one further frame is
    requested and the recorded press is kept.  From
    [elapsed >= PAUSE_COMBO_TIMEOUT] on the progress is 0, the bar is
    not drawn, no frame is requested and [lastComboPressTime] is
    cleared.  The game itself is never touched.  Only the order and the
    sign of the progress are stated, not its value. *)
Theorem combo_bar_decay (now : number) (s : State) :
  0 <= pauseComboProgress (animateComboBar now s)
  /\ (now - comboStartTimeRef s < PAUSE_COMBO_TIMEOUT ->
      0 < pauseComboProgress (animateComboBar now s)
      /\ PauseComboProgressBar (pauseComboProgress (animateComboBar now s))
         = Some (pauseComboProgress (animateComboBar now s))
      /\ comboAnimationRef (animateComboBar now s) = Some (rafNext s)
      /\ rafPending (animateComboBar now s) = rafNext s :: rafPending s
      /\ lastComboPressTime (animateComboBar now s) = lastComboPressTime s)
  /\ (PAUSE_COMBO_TIMEOUT <= now - comboStartTimeRef s ->
      pauseComboProgress (animateComboBar now s) == 0
      /\ PauseComboProgressBar (pauseComboProgress (animateComboBar now s))
         = None
      /\ comboAnimationRef (animateComboBar now s) = comboAnimationRef s
      /\ rafPending (animateComboBar now s) = rafPending s
      /\ lastComboPressTime (animateComboBar now s) = 0)
  /\ (0 <= now - comboStartTimeRef s ->
      pauseComboProgress (animateComboBar now s) <= 50)
  /\ (forall now', now <= now' ->
        pauseComboProgress (animateComboBar now' s)
        <= pauseComboProgress (animateComboBar now s))
  /\ gameState (animateComboBar now s) = gameState s
  /\ sameGame s (animateComboBar now s)
  /\ keysPressed (animateComboBar now s) = keysPressed s.
Proof.
  pose proof (progress_value now (comboStartTimeRef s)) as Hv.
  cbv zeta in Hv. destruct Hv as [H0 [Hlt [Hge H50]]].
  pose proof (animateComboBar_progress now s) as Hp.
  split; [rewrite Hp; exact H0 |].
  split; [| split; [| split; [| split; [| split; [| split]]]]].
  - intros Hl. destruct (Hlt Hl) as [Hv Hpos].
    split; [rewrite Hp; exact Hpos |].
    split; [apply PauseComboProgressBar_shown; rewrite Hp; exact Hpos |].
    apply num_gt_iff in Hpos.
    unfold animateComboBar. cbv zeta. rewrite Hpos.
    destruct s. repeat split.
  - intros Hg. pose proof (Hge Hg) as Hz.
    split; [rewrite Hp; exact Hz |].
    split; [apply PauseComboProgressBar_shown; rewrite Hp; lra |].
    assert (Hn : num_gt (Qmax 0 (50 * (1 - (now - comboStartTimeRef s)
                                          / PAUSE_COMBO_TIMEOUT))) 0 = false)
      by (apply num_lt_false_iff; lra).
    unfold animateComboBar. cbv zeta. rewrite Hn.
    destruct s. repeat split.
  - intros He. rewrite Hp. exact (H50 He).
  - intros now' Hle. rewrite Hp, (animateComboBar_progress now' s).
    unfold PAUSE_COMBO_TIMEOUT.
    assert (Hq : (now - comboStartTimeRef s) / 4000 * 4000
                 == now - comboStartTimeRef s) by (field; discriminate).
    assert (Hq' : (now' - comboStartTimeRef s) / 4000 * 4000
                  == now' - comboStartTimeRef s) by (field; discriminate).
    set (q := (now - comboStartTimeRef s) / 4000) in *.
    set (q' := (now' - comboStartTimeRef s) / 4000) in *.
    destruct (Q.max_spec 0 (50 * (1 - q))) as [[H1 H2] | [H1 H2]];
    destruct (Q.max_spec 0 (50 * (1 - q'))) as [[H1' H2'] | [H1' H2']];
      rewrite H2, H2'; lra.
  - destruct s. open_handlers. by_cases.
  - unfold sameGame. destruct s. open_handlers. by_cases; repeat split.
  - destruct s. open_handlers. by_cases.
Qed.

Lemma combo_bar_decay_witness :
  0 < pauseComboProgress (animateComboBar 1700000003056 armedState)
  /\ lastComboPressTime (animateComboBar 1700000008000 armedState) = 0.
Proof.
  split.
  - apply (proj1 (proj2 (combo_bar_decay 1700000003056 armedState))).
    vm_compute. reflexivity.
  - apply (proj1 (proj2 (proj2 (combo_bar_decay 1700000008000 armedState)))).
    vm_compute. discriminate.
Defined.

(** ** The keyboard *)

Lemma keysPressed_handlePauseCombo (now : number) (s : State) :
  keysPressed (handlePauseCombo now s) = keysPressed s.
Proof. destruct s. open_handlers. by_cases. Qed.

Lemma keysPressed_handleKeyDown (key : string) (now : number) (s : State) :
  keysPressed (handleKeyDown key false now s) = {[ key ]} ∪ keysPressed s.
Proof.
  unfold handleKeyDown. cbv zeta.
  match goal with |- context [if ?c then _ else _] => destruct c end;
    rewrite ?keysPressed_handlePauseCombo; reflexivity.
Qed.

(** X3. Key down, key up.  A key-down that is not a repeat records the
    key, whatever the pause gesture does with it; a repeat changes
    nothing at all; a key-up forgets the key and touches nothing else.
    A key-down followed by the key-up of the same key leaves the held
    set without that key, so exactly as it was when the key was not
    held before. *)
Theorem key_down_then_up (key : string) (now : number) (s : State) :
  keysPressed (handleKeyDown key false now s) = {[ key ]} ∪ keysPressed s
  /\ handleKeyDown key true now s = s
  /\ handleKeyUp key s = setKeysPressed (keysPressed s ∖ {[ key ]}) s
  /\ keysPressed (handleKeyUp key (handleKeyDown key false now s))
     = keysPressed s ∖ {[ key ]}
  /\ (key ∉ keysPressed s ->
      keysPressed (handleKeyUp key (handleKeyDown key false now s))
      = keysPressed s)
  /\ (forall k, has k (keysPressed (handleKeyUp key s)) = true ->
                k <> key /\ has k (keysPressed s) = true).
Proof.
  assert (Hud : keysPressed (handleKeyUp key (handleKeyDown key false now s))
                = keysPressed s ∖ {[ key ]}).
  { unfold handleKeyUp. cbn [setKeysPressed keysPressed].
    rewrite keysPressed_handleKeyDown. set_solver. }
  split; [apply keysPressed_handleKeyDown |].
  split; [reflexivity |]. split; [reflexivity |]. split; [exact Hud |].
  split.
  - intros Hn. rewrite Hud. set_solver.
  - intros k Hk. unfold has in *. cbn [handleKeyUp setKeysPressed keysPressed] in Hk.
    apply bool_decide_eq_true_1 in Hk.
    split; [set_solver |]. apply bool_decide_eq_true_2. set_solver.
Qed.

Lemma key_down_then_up_witness :
  keysPressed
    (handleKeyUp "ArrowLeft" (handleKeyDown "ArrowLeft" false 1700000000000 grazing))
  = keysPressed grazing.
Proof.
  apply (proj1 (proj2 (proj2 (proj2 (proj2
           (key_down_then_up "ArrowLeft" 1700000000000 grazing)))))).
  apply (bool_decide_unpack _). vm_compute. exact I.
Defined.

(** X4. While ArrowLeft and ArrowRight are both held, a key-down of any
    key that is not a repeat runs the pause gesture: the test of
    [handleKeyDown] looks at the held set, not at the key of the event.
    So during a running game with a first press recorded less than
    [PAUSE_COMBO_TIMEOUT] ago, such a key-down pauses the game. *)
Theorem any_key_while_both_held (key : string) (now : number) (s : State) :
  "ArrowLeft"%string ∈ keysPressed s ->
  "ArrowRight"%string ∈ keysPressed s ->
  handleKeyDown key false now s
  = handlePauseCombo now (setKeysPressed ({[ key ]} ∪ keysPressed s) s)
  /\ (gameState s = Active ->
      now - lastComboPressTime s < PAUSE_COMBO_TIMEOUT ->
      gameState (handleKeyDown key false now s) = Paused).
Proof.
  intros HL HR.
  assert (E : handleKeyDown key false now s
              = handlePauseCombo now
                  (setKeysPressed ({[ key ]} ∪ keysPressed s) s)).
  { apply qualifying_press_runs_handler; unfold has;
      apply bool_decide_eq_true_2; set_solver. }
  split; [exact E |].
  intros HA Hlt. rewrite E. apply num_lt_iff in Hlt.
  unfold handlePauseCombo.
  cbn [setKeysPressed gameState lastComboPressTime]. rewrite HA, Hlt.
  cbn [GameState_eqb negb andb]. destruct s. open_handlers. by_cases.
Qed.

Lemma any_key_while_both_held_witness :
  gameState (handleKeyDown "a" false 1700000004000 armedState) = Paused.
Proof.
  apply (any_key_while_both_held "a" 1700000004000 armedState).
  - apply (bool_decide_unpack _). vm_compute. exact I.
  - apply (bool_decide_unpack _). vm_compute. exact I.
  - vm_compute. reflexivity.
  - vm_compute. reflexivity.
Defined.

(** ** The game state machine *)

Lemma gameState_handlePauseCombo (now : number) (s : State) :
  gameState (handlePauseCombo now s)
  = match gameState s with
    | Active =>
        if num_lt (now - lastComboPressTime s) PAUSE_COMBO_TIMEOUT
        then Paused else Active
    | Paused =>
        if num_lt (now - lastComboPressTime s) PAUSE_COMBO_TIMEOUT
        then Active else Paused
    | other => other
    end.
Proof.
  destruct s as [gs p objs sc pr keys lo lc cs ar rn rp].
  destruct gs; open_handlers; cbn [GameState_eqb negb andb]; by_cases.
Qed.

Lemma gameState_cancelComboAnimation (s : State) :
  gameState (cancelComboAnimation s) = gameState s.
Proof. destruct s. open_handlers. by_cases. Qed.

Lemma gameState_step (e : Event) (s : State) :
  gameState (step e s) = gameState (dispatch e s).
Proof.
  unfold step, commit.
  destruct (GameState_eqb (gameState s) (gameState (dispatch e s)));
    rewrite ?gameState_cancelComboAnimation; reflexivity.
Qed.

(** X5. The moves of the game state.  One event either leaves the game
    state alone or makes one of five moves: Ready to Active, Active to
    Paused, Active to GameOver, Paused to Active, GameOver to Active.
    A frame of the main loop can only end an [Active] game; a key-down
    can only toggle between [Active] and [Paused], and not when it is a
    repeat; a click always leads to [Active]; a combo-bar frame and a
    key-up never change the game state.  [Ready] is never entered. *)
Theorem game_state_moves (e : Event) (s : State) :
  (gameState (step e s) = gameState s
   \/ transition (gameState s) (gameState (step e s)))
  /\ (gameState (step e s) <> Ready \/ gameState s = Ready)
  /\ (gameState (step e s) <> gameState s ->
      match e with
      | Frame _ _ => gameState s = Active /\ gameState (step e s) = GameOver
      | KeyDown _ repeat _ =>
          repeat = false
          /\ (gameState s = Active /\ gameState (step e s) = Paused
              \/ gameState s = Paused /\ gameState (step e s) = Active)
      | Click => gameState s <> Active /\ gameState (step e s) = Active
      | ComboFrame _ _ | KeyUp _ => False
      end).
Proof.
  rewrite gameState_step.
  destruct e as [now rnd | h now | key rep now | key |]; cbn [dispatch].
  - destruct (GameState_eqb (gameState s) Active) eqn:E.
    + apply GameState_eqb_eq in E. rewrite (gameLoop_active now rnd s E).
      cbn [gameState]. rewrite E.
      destruct (existsb _ _); cbn; intuition congruence.
    + rewrite gameLoop_inactive
        by (intros HA; rewrite HA in E; discriminate).
      destruct (gameState s); cbn in *; intuition congruence.
  - assert (E : gameState
                  (if existsb (Pos.eqb h) (rafPending s)
                   then animateComboBar now (cancelAnimationFrame h s)
                   else s) = gameState s).
    { destruct (existsb (Pos.eqb h) (rafPending s)); [| reflexivity].
      destruct s. open_handlers. by_cases. }
    rewrite E. destruct (gameState s); cbn; intuition congruence.
  - unfold handleKeyDown. destruct rep; [destruct (gameState s); cbn; intuition congruence |].
    cbv zeta.
    match goal with |- context [if ?c then _ else _] => destruct c end;
      [| cbn [setKeysPressed gameState]; destruct (gameState s); cbn; intuition congruence].
    rewrite gameState_handlePauseCombo. cbn [setKeysPressed gameState
                                              lastComboPressTime].
    destruct (gameState s);
      try destruct (num_lt (now - lastComboPressTime s) PAUSE_COMBO_TIMEOUT);
      cbn; intuition congruence.
  - cbn [handleKeyUp setKeysPressed gameState]. destruct (gameState s); cbn; intuition congruence.
  - unfold renderContent. destruct (gameState s) eqn:E;
      cbn [runHandler onButtonClick].
    + cbn. rewrite ?E. intuition congruence.
    + rewrite E. cbn. intuition congruence.
    + unfold resumeGame. rewrite E. cbn. intuition congruence.
    + cbn. intuition congruence.
Qed.

Lemma game_state_moves_witness :
  gameState grazing = Active
  /\ gameState (step (Frame 1700000003056 (1 # 2)) grazing) = GameOver.
Proof.
  apply (proj2 (proj2 (game_state_moves (Frame 1700000003056 (1 # 2)) grazing))).
  vm_compute. discriminate.
Defined.

Lemma sameGame_refl (s : State) : sameGame s s.
Proof. repeat split. Qed.

Lemma sameGame_handlePauseCombo (now : number) (s : State) :
  sameGame s (handlePauseCombo now s).
Proof. unfold sameGame. destruct s. open_handlers. by_cases; repeat split. Qed.

Lemma sameGame_cancelComboAnimation (s : State) :
  sameGame s (cancelComboAnimation s).
Proof. unfold sameGame. destruct s. open_handlers. by_cases; repeat split. Qed.

Lemma sameGame_animateComboBar (now : number) (s : State) :
  sameGame s (animateComboBar now s).
Proof. unfold sameGame. destruct s. open_handlers. by_cases; repeat split. Qed.

Lemma sameGame_resumeGame (s : State) : sameGame s (resumeGame s).
Proof. unfold sameGame. destruct s. open_handlers. by_cases; repeat split. Qed.

Lemma sameGame_trans (s1 s2 s3 : State) :
  sameGame s1 s2 -> sameGame s2 s3 -> sameGame s1 s3.
Proof.
  unfold sameGame. intros [A [B C]] [A' [B' C']]. repeat split; congruence.
Qed.

(** X6. What can change a game.  Player, objects and score are changed
    by nothing but a frame of the main loop run while [Active] and a
    click on the Start or Restart button: key events, combo-bar frames,
    a click on Resume, and frames run while [Ready], [Paused] or
    [GameOver] leave all three as they are. *)
Theorem game_changes_only_by_frame_or_start (e : Event) (s : State) :
  sameGame s (step e s)
  \/ (exists now rnd, e = Frame now rnd /\ gameState s = Active)
  \/ (e = Click /\ (gameState s = Ready \/ gameState s = GameOver)).
Proof.
  assert (Hc : sameGame s (dispatch e s) -> sameGame s (step e s)).
  { intros H. unfold step, commit.
    destruct (GameState_eqb (gameState s) (gameState (dispatch e s)));
      [exact H |].
    exact (sameGame_trans _ _ _ H (sameGame_cancelComboAnimation _)). }
  destruct e as [now rnd | h now | key rep now | key |].
  - destruct (GameState_eqb (gameState s) Active) eqn:E.
    + apply GameState_eqb_eq in E. right. left. eauto.
    + left. apply Hc. cbn [dispatch]. rewrite gameLoop_inactive.
      * apply sameGame_refl.
      * intros HA. rewrite HA in E. discriminate.
  - left. apply Hc. cbn [dispatch].
    destruct (existsb (Pos.eqb h) (rafPending s)); [| apply sameGame_refl].
    exact (sameGame_animateComboBar now (cancelAnimationFrame h s)).
  - left. apply Hc. cbn [dispatch]. unfold handleKeyDown.
    destruct rep; [apply sameGame_refl |]. cbv zeta.
    match goal with |- context [if ?c then _ else _] => destruct c end;
      [| repeat split].
    exact (sameGame_handlePauseCombo now (setKeysPressed _ s)).
  - left. apply Hc. repeat split.
  - destruct (gameState s) eqn:E.
    + right. right. auto.
    + left. apply Hc. cbn [dispatch]. unfold renderContent. rewrite E.
      apply sameGame_refl.
    + left. apply Hc. cbn [dispatch]. unfold renderContent. rewrite E.
      cbn [runHandler onButtonClick]. apply sameGame_resumeGame.
    + right. right. auto.
Qed.

(** X7. The keyboard effect's cleanup.  In a session, an event that
    changes the game state leaves no combo-bar frame pending, so no
    later combo-bar frame does anything until the combo is pressed
    again; the cleanup cancels the frame and nothing more:
    [pauseComboProgress] and [lastComboPressTime] stay as the handler
    left them. *)
Theorem state_change_stops_combo_bar (e : Event) (s : State) :
  reachable s ->
  gameState (step e s) <> gameState s ->
  rafPending (step e s) = []
  /\ (forall h now, step (ComboFrame h now) (step e s) = step e s)
  /\ pauseComboProgress (step e s) = pauseComboProgress (dispatch e s)
  /\ lastComboPressTime (step e s) = lastComboPressTime (dispatch e s).
Proof.
  intros Hr Hne.
  assert (Hd : oneComboFrame (dispatch e s))
    by (apply oneComboFrame_dispatch, reachable_oneComboFrame; exact Hr).
  assert (Hstep : step e s = cancelComboAnimation (dispatch e s)).
  { unfold step, commit.
    destruct (GameState_eqb (gameState s) (gameState (dispatch e s))) eqn:E;
      [| reflexivity].
    apply GameState_eqb_eq in E. rewrite gameState_step in Hne. congruence. }
  assert (Hnil : rafPending (step e s) = []).
  { rewrite Hstep. apply cancelComboAnimation_none. exact Hd. }
  split; [exact Hnil |]. split; [| split].
  - intros h now. unfold step at 1. cbn [dispatch]. rewrite Hnil.
    cbn [existsb]. unfold commit.
    destruct (GameState_eqb_eq (gameState (step e s)) (gameState (step e s)))
      as [_ H]. rewrite (H eq_refl). reflexivity.
  - rewrite Hstep. destruct (dispatch e s). open_handlers. by_cases.
  - rewrite Hstep. destruct (dispatch e s). open_handlers. by_cases.
Qed.

Lemma state_change_stops_combo_bar_witness :
  let over := run armedCrashSession initialState in
  rafPending over = []
  /\ pauseComboProgress over == 997 # 20
  /\ step (ComboFrame 2 1700000003072) over = over.
Proof.
  cbv zeta.
  assert (Hr : reachable
                 (run (removelast armedCrashSession) initialState)).
  { eexists. reflexivity. }
  assert (E : run armedCrashSession initialState
              = step (Frame 1700000003056 (1 # 2))
                  (run (removelast armedCrashSession) initialState))
    by (vm_compute; reflexivity).
  rewrite E.
  destruct (state_change_stops_combo_bar
              (Frame 1700000003056 (1 # 2))
              (run (removelast armedCrashSession) initialState) Hr)
    as [Hnil [Hfr _]].
  - vm_compute. discriminate.
  - split; [exact Hnil |]. split; [vm_compute; reflexivity |]. apply Hfr.
Defined.

(** ** The object set over a session *)

Lemma objects_cancelComboAnimation_spawn (s : State) :
  lastObjectSpawn (cancelComboAnimation s) = lastObjectSpawn s.
Proof. destruct s. open_handlers. by_cases. Qed.

(** What one event does to the object set and to [lastObjectSpawn]. *)
Lemma objects_step (e : Event) (s : State) :
  (objects (step e s) = objects s
   /\ lastObjectSpawn (step e s) = lastObjectSpawn s)
  \/ (objects (step e s) = []
      /\ lastObjectSpawn (step e s) = lastObjectSpawn s)
  \/ (exists now rnd,
        e = Frame now rnd
        /\ objects (step e s)
           = tickObjects now rnd (lastObjectSpawn s) (objects s)
        /\ lastObjectSpawn (step e s) = tickSpawn now (lastObjectSpawn s)).
Proof.
  assert (Hc : objects (step e s) = objects (dispatch e s)
               /\ lastObjectSpawn (step e s) = lastObjectSpawn (dispatch e s)).
  { unfold step, commit.
    destruct (GameState_eqb (gameState s) (gameState (dispatch e s)));
      rewrite ?objects_cancelComboAnimation,
              ?objects_cancelComboAnimation_spawn; split; reflexivity. }
  destruct Hc as [-> ->].
  destruct e as [now rnd | h now | key rep now | key |]; cbn [dispatch].
  - destruct (GameState_eqb (gameState s) Active) eqn:E.
    + apply GameState_eqb_eq in E. right. right. exists now, rnd.
      rewrite (gameLoop_active now rnd s E). repeat split.
    + left. rewrite gameLoop_inactive; [split; reflexivity |].
      intros HA. rewrite HA in E. discriminate.
  - left. destruct (existsb (Pos.eqb h) (rafPending s));
      [| split; reflexivity].
    destruct s. open_handlers. by_cases; split; reflexivity.
  - left. unfold handleKeyDown. destruct rep; [split; reflexivity |].
    cbv zeta. destruct s. open_handlers. by_cases; split; reflexivity.
  - left. split; reflexivity.
  - unfold renderContent. destruct (gameState s) eqn:E;
      cbn [runHandler onButtonClick].
    + right. left. split; reflexivity.
    + left. split; reflexivity.
    + left. destruct s. open_handlers. by_cases; split; reflexivity.
    + right. left. split; reflexivity.
Qed.

Section ObjectInvariant.

(** A property of the object set and the last spawn time that the
    empty set has and a tick preserves holds throughout a session. *)
Variable P : list FallingObject.t -> number -> Prop.
Variable okEvent : Event -> Prop.

Hypothesis P_empty : forall objs last, P objs last -> P [] last.
Hypothesis P_tick :
  forall now rnd objs last,
    okEvent (Frame now rnd) -> P objs last ->
    P (tickObjects now rnd last objs) (tickSpawn now last).

Lemma run_preserves (es : list Event) (s : State) :
  Forall okEvent es ->
  P (objects s) (lastObjectSpawn s) ->
  P (objects (run es s)) (lastObjectSpawn (run es s)).
Proof.
  revert s. induction es as [| e es IH]; intros s Hok Hs; [exact Hs |].
  inversion Hok as [| e' es' He Hes]; subst.
  apply (IH (step e s) Hes).
  destruct (objects_step e s)
    as [[-> ->] | [[-> ->] | [now [rnd [-> [-> ->]]]]]].
  - exact Hs.
  - exact (P_empty _ _ Hs).
  - apply P_tick; assumption.
Qed.

End ObjectInvariant.

Lemma idsSpaced_filter (f : FallingObject.t -> bool) (objs : list FallingObject.t) :
  idsSpaced objs -> idsSpaced (List.filter f objs).
Proof.
  induction objs as [| obj rest IH]; intros H; [exact I |].
  destruct H as [Hh Hr]. cbn [List.filter].
  destruct (f obj); [| exact (IH Hr)].
  split; [| exact (IH Hr)].
  intros obj' Hin. apply filter_In in Hin. apply Hh. tauto.
Qed.

Lemma idsSpaced_map_fall (objs : list FallingObject.t) :
  idsSpaced objs -> idsSpaced (List.map fall objs).
Proof.
  induction objs as [| obj rest IH]; intros H; [exact I |].
  destruct H as [Hh Hr]. split; [| exact (IH Hr)].
  intros obj' Hin. apply in_map_iff in Hin.
  destruct Hin as [o [<- Ho]]. exact (Hh o Ho).
Qed.

Lemma idsSpaced_snoc (objs : list FallingObject.t) (new : FallingObject.t) :
  idsSpaced objs ->
  (forall obj, In obj objs ->
               FallingObject.id obj + OBJECT_SPAWN_INTERVAL
               < FallingObject.id new) ->
  idsSpaced (objs ++ [new]).
Proof.
  induction objs as [| obj rest IH]; intros H Hnew.
  - split; [intros obj' [] | exact I].
  - destruct H as [Hh Hr]. split.
    + intros obj' Hin. apply in_app_iff in Hin.
      destruct Hin as [Hin | [<- | []]];
        [exact (Hh obj' Hin) | apply Hnew; left; reflexivity].
    + apply IH; [exact Hr |]. intros o Ho. apply Hnew. right. exact Ho.
Qed.

Lemma idsSpaced_nth (objs : list FallingObject.t) (i j : nat)
    (a b : FallingObject.t) :
  idsSpaced objs ->
  nth_error objs i = Some a -> nth_error objs j = Some b -> (i < j)%nat ->
  FallingObject.id a + OBJECT_SPAWN_INTERVAL < FallingObject.id b.
Proof.
  revert i j. induction objs as [| obj rest IH]; intros i j H Ha Hb Hij.
  - destruct i; discriminate.
  - destruct H as [Hh Hr]. destruct j as [| j]; [lia |].
    cbn [nth_error] in Hb. destruct i as [| i].
    + cbn [nth_error] in Ha. injection Ha as ->.
      apply Hh. exact (nth_error_In _ _ Hb).
    + cbn [nth_error] in Ha. apply (IH i j Hr Ha Hb). lia.
Qed.

Lemma ids_tick (now rnd last : number) (objs : list FallingObject.t) :
  idsSpaced objs
  /\ (forall obj, In obj objs -> FallingObject.id obj <= last) ->
  idsSpaced (tickObjects now rnd last objs)
  /\ (forall obj, In obj (tickObjects now rnd last objs) ->
                  FallingObject.id obj <= tickSpawn now last).
Proof.
  intros [Hs Hb]. unfold tickObjects, tickSpawn.
  destruct (num_gt (now - last) OBJECT_SPAWN_INTERVAL) eqn:E.
  - apply num_gt_iff in E. split.
    + apply idsSpaced_filter, idsSpaced_map_fall, idsSpaced_snoc;
        [exact Hs |].
      intros obj Hin. specialize (Hb obj Hin). cbn [newObject FallingObject.id].
      lra.
    + intros obj Hin. apply filter_In in Hin. destruct Hin as [Hin _].
      apply in_map_iff in Hin. destruct Hin as [o [<- Ho]].
      cbn [fall FallingObject.id]. apply in_app_iff in Ho.
      destruct Ho as [Ho | [<- | []]].
      * specialize (Hb o Ho). unfold OBJECT_SPAWN_INTERVAL in E. lra.
      * cbn [newObject FallingObject.id]. lra.
  - split.
    + apply idsSpaced_filter, idsSpaced_map_fall. exact Hs.
    + intros obj Hin. apply filter_In in Hin. destruct Hin as [Hin _].
      apply in_map_iff in Hin. destruct Hin as [o [<- Ho]].
      exact (Hb o Ho).
Qed.

(** X8. Object ids.  In every state of a session the object list is in
    spawn order with ids more than [OBJECT_SPAWN_INTERVAL] apart, none
    above [lastObjectSpawn]; so no two objects of the list share an id,
    whatever values the clock returns. *)
Theorem object_ids_distinct (s : State) :
  reachable s ->
  (forall obj, In obj (objects s) -> FallingObject.id obj <= lastObjectSpawn s)
  /\ (forall i j a b,
        nth_error (objects s) i = Some a ->
        nth_error (objects s) j = Some b ->
        (i < j)%nat ->
        FallingObject.id a + OBJECT_SPAWN_INTERVAL < FallingObject.id b)
  /\ (forall i j a b,
        nth_error (objects s) i = Some a ->
        nth_error (objects s) j = Some b ->
        i <> j ->
        ~ FallingObject.id a == FallingObject.id b).
Proof.
  intros [es ->].
  assert (H : idsSpaced (objects (run es initialState))
              /\ (forall obj, In obj (objects (run es initialState)) ->
                              FallingObject.id obj
                              <= lastObjectSpawn (run es initialState))).
  { apply (run_preserves
             (fun objs last =>
                idsSpaced objs
                /\ (forall obj, In obj objs -> FallingObject.id obj <= last))
             (fun _ => True)).
    - intros objs last _. split; [exact I | intros obj []].
    - intros now rnd objs last _. apply ids_tick.
    - apply Forall_forall. intros e _. exact I.
    - split; [exact I | intros obj []]. }
  destruct H as [Hs Hb]. split; [exact Hb |].
  assert (Hlt : forall i j a b,
             nth_error (objects (run es initialState)) i = Some a ->
             nth_error (objects (run es initialState)) j = Some b ->
             (i < j)%nat ->
             FallingObject.id a + OBJECT_SPAWN_INTERVAL < FallingObject.id b)
    by (intros i j a b; apply idsSpaced_nth; exact Hs).
  split; [exact Hlt |].
  intros i j a b Ha Hb' Hne E.
  destruct (Nat.lt_total i j) as [Hij | [Hij | Hij]]; [| contradiction |].
  - pose proof (Hlt i j a b Ha Hb' Hij). unfold OBJECT_SPAWN_INTERVAL in *. lra.
  - pose proof (Hlt j i b a Hb' Ha Hij). unfold OBJECT_SPAWN_INTERVAL in *. lra.
Qed.

Lemma object_ids_distinct_witness :
  exists a b,
    nth_error (objects earlyGame) 0 = Some a
    /\ nth_error (objects earlyGame) 1 = Some b
    /\ FallingObject.id a + OBJECT_SPAWN_INTERVAL < FallingObject.id b.
Proof.
  assert (Hr : reachable earlyGame) by (eexists; reflexivity).
  eexists. eexists.
  assert (Ha : nth_error (objects earlyGame) 0
               = Some (FallingObject.mk 1700000000000 (575 # 2) 135 25))
    by (vm_compute; reflexivity).
  assert (Hb : nth_error (objects earlyGame) 1
               = Some (FallingObject.mk 1700000000512 (575 # 2) 7 25))
    by (vm_compute; reflexivity).
  split; [exact Ha |]. split; [exact Hb |].
  apply (proj1 (proj2 (object_ids_distinct earlyGame Hr)) 0%nat 1%nat _ _ Ha Hb).
  lia.
Defined.

Lemma stacked_filter (f : FallingObject.t -> bool) (objs : list FallingObject.t) :
  stacked objs -> stacked (List.filter f objs).
Proof.
  induction objs as [| obj rest IH]; intros H; [exact I |].
  destruct H as [Hh Hr]. cbn [List.filter].
  destruct (f obj); [| exact (IH Hr)].
  split; [| exact (IH Hr)].
  intros obj' Hin. apply filter_In in Hin. apply Hh. tauto.
Qed.

Lemma stacked_map_fall (objs : list FallingObject.t) :
  stacked objs -> stacked (List.map fall objs).
Proof.
  induction objs as [| obj rest IH]; intros H; [exact I |].
  destruct H as [Hh Hr]. split; [| exact (IH Hr)].
  intros obj' Hin. apply in_map_iff in Hin.
  destruct Hin as [o [<- Ho]]. specialize (Hh o Ho).
  cbn [fall FallingObject.y]. lra.
Qed.

Lemma stacked_snoc (objs : list FallingObject.t) (new : FallingObject.t) :
  stacked objs ->
  (forall obj, In obj objs ->
               FallingObject.y new + OBJECT_SPEED <= FallingObject.y obj) ->
  stacked (objs ++ [new]).
Proof.
  induction objs as [| obj rest IH]; intros H Hnew.
  - split; [intros obj' [] | exact I].
  - destruct H as [Hh Hr]. split.
    + intros obj' Hin. apply in_app_iff in Hin.
      destruct Hin as [Hin | [<- | []]];
        [exact (Hh obj' Hin) | apply Hnew; left; reflexivity].
    + apply IH; [exact Hr |]. intros o Ho. apply Hnew. right. exact Ho.
Qed.

Lemma stacked_nth (objs : list FallingObject.t) (i j : nat)
    (a b : FallingObject.t) :
  stacked objs ->
  nth_error objs i = Some a -> nth_error objs j = Some b -> (i < j)%nat ->
  FallingObject.y b + OBJECT_SPEED <= FallingObject.y a.
Proof.
  revert i j. induction objs as [| obj rest IH]; intros i j H Ha Hb Hij.
  - destruct i; discriminate.
  - destruct H as [Hh Hr]. destruct j as [| j]; [lia |].
    cbn [nth_error] in Hb. destruct i as [| i].
    + cbn [nth_error] in Ha. injection Ha as ->.
      apply Hh. exact (nth_error_In _ _ Hb).
    + cbn [nth_error] in Ha. apply (IH i j Hr Ha Hb). lia.
Qed.

(** In a stack whose objects are all at [lo] or below it, the first one
    is at least [OBJECT_SPEED] times the number of the others further
    down. *)
Lemma stacked_head (lo : number) (obj : FallingObject.t)
    (rest : list FallingObject.t) :
  stacked (obj :: rest) ->
  (forall o, In o (obj :: rest) -> lo <= FallingObject.y o) ->
  lo + OBJECT_SPEED * inject_Z (Z.of_nat (length rest)) <= FallingObject.y obj.
Proof.
  revert obj. induction rest as [| o2 rest IH]; intros obj H Hlo.
  - change (inject_Z (Z.of_nat (length (@nil FallingObject.t)))) with 0.
    specialize (Hlo obj (or_introl eq_refl)). unfold OBJECT_SPEED. lra.
  - destruct H as [Hh Hr].
    specialize (IH o2 Hr (fun o Ho => Hlo o (or_intror Ho))).
    specialize (Hh o2 (or_introl eq_refl)).
    change (length (o2 :: rest)) with (S (length rest)).
    rewrite Nat2Z.inj_succ, <- Z.add_1_r, inject_Z_plus.
    change (inject_Z 1) with 1. unfold OBJECT_SPEED in *. lra.
Qed.

Lemma stack_tick (now rnd last : number) (objs : list FallingObject.t) :
  stacked objs
  /\ (forall obj, In obj objs ->
                  - OBJECT_SIZE + OBJECT_SPEED <= FallingObject.y obj
                  /\ FallingObject.y obj < GAME_HEIGHT) ->
  stacked (tickObjects now rnd last objs)
  /\ (forall obj, In obj (tickObjects now rnd last objs) ->
                  - OBJECT_SIZE + OBJECT_SPEED <= FallingObject.y obj
                  /\ FallingObject.y obj < GAME_HEIGHT).
Proof.
  intros [Hs Hb]. unfold tickObjects.
  set (before := if num_gt (now - last) OBJECT_SPAWN_INTERVAL
                 then objs ++ [newObject now rnd] else objs).
  assert (Hbefore : stacked before
                    /\ forall obj, In obj before ->
                                   - OBJECT_SIZE <= FallingObject.y obj).
  { unfold before. destruct (num_gt (now - last) OBJECT_SPAWN_INTERVAL).
    - split.
      + apply stacked_snoc; [exact Hs |]. intros obj Hin.
        destruct (Hb obj Hin) as [Hlo _]. cbn [newObject FallingObject.y].
        exact Hlo.
      + intros obj Hin. apply in_app_iff in Hin.
        destruct Hin as [Hin | [<- | []]].
        * destruct (Hb obj Hin) as [Hlo _].
          unfold OBJECT_SIZE, OBJECT_SPEED in *. lra.
        * cbn [newObject FallingObject.y]. lra.
    - split; [exact Hs |]. intros obj Hin. destruct (Hb obj Hin) as [Hlo _].
      unfold OBJECT_SIZE, OBJECT_SPEED in *. lra. }
  destruct Hbefore as [Hst Hlo]. split.
  - apply stacked_filter, stacked_map_fall. exact Hst.
  - intros obj Hin. apply filter_In in Hin. destruct Hin as [Hin Hf].
    apply onField_iff in Hf. split; [| exact Hf].
    apply in_map_iff in Hin. destruct Hin as [o [<- Ho]].
    specialize (Hlo o Ho). cbn [fall FallingObject.y].
    unfold OBJECT_SIZE, OBJECT_SPEED in *. lra.
Qed.

(** X9. The stack of falling objects.  In every state of a session the
    object list runs from the lowest object to the highest, each one at
    least [OBJECT_SPEED] above the one listed before it, so no two
    objects are at the same height; with all of them between
    [-OBJECT_SIZE + OBJECT_SPEED] and [GAME_HEIGHT], the list never
    holds more than 206 objects, however often the spawner fires. *)
Theorem object_stack_bounded (s : State) :
  reachable s ->
  (forall i j a b,
      nth_error (objects s) i = Some a ->
      nth_error (objects s) j = Some b ->
      (i < j)%nat ->
      FallingObject.y b + OBJECT_SPEED <= FallingObject.y a)
  /\ (forall obj, In obj (objects s) ->
                  - OBJECT_SIZE + OBJECT_SPEED <= FallingObject.y obj
                  /\ FallingObject.y obj < GAME_HEIGHT)
  /\ (length (objects s) <= 206)%nat.
Proof.
  intros [es ->].
  assert (H : stacked (objects (run es initialState))
              /\ (forall obj, In obj (objects (run es initialState)) ->
                    - OBJECT_SIZE + OBJECT_SPEED <= FallingObject.y obj
                    /\ FallingObject.y obj < GAME_HEIGHT)).
  { apply (run_preserves
             (fun objs (_ : number) =>
                stacked objs
                /\ (forall obj, In obj objs ->
                      - OBJECT_SIZE + OBJECT_SPEED <= FallingObject.y obj
                      /\ FallingObject.y obj < GAME_HEIGHT))
             (fun _ => True)).
    - intros objs last _. split; [exact I | intros obj []].
    - intros now rnd objs last _. apply stack_tick.
    - apply Forall_forall. intros e _. exact I.
    - split; [exact I | intros obj []]. }
  destruct H as [Hs Hb].
  split; [intros i j a b; apply stacked_nth; exact Hs |].
  split; [exact Hb |].
  destruct (objects (run es initialState)) as [| obj rest] eqn:E;
    [cbn; lia |].
  pose proof (stacked_head (- OBJECT_SIZE + OBJECT_SPEED) obj rest Hs
                (fun o Ho => proj1 (Hb o Ho))) as Hh.
  destruct (Hb obj (or_introl eq_refl)) as [_ Hy].
  assert (Hq : inject_Z (4 * Z.of_nat (length rest)) < inject_Z 821).
  { rewrite inject_Z_mult. change (inject_Z 4) with 4.
    change (inject_Z 821) with 821.
    unfold OBJECT_SIZE, OBJECT_SPEED, GAME_HEIGHT in *. lra. }
  rewrite <- Zlt_Qlt in Hq.
  change (length (obj :: rest)) with (S (length rest)). lia.
Qed.

Lemma object_stack_bounded_witness :
  (length (objects earlyGame) <= 206)%nat.
Proof.
  assert (Hr : reachable earlyGame) by (eexists; reflexivity).
  exact (proj2 (proj2 (object_stack_bounded earlyGame Hr))).
Defined.

Lemma playfield_tick (now rnd last : number) (objs : list FallingObject.t) :
  0 <= rnd -> rnd < 1 ->
  (forall obj, In obj objs -> inPlayfield obj) ->
  forall obj, In obj (tickObjects now rnd last objs) -> inPlayfield obj.
Proof.
  intros H0 H1 Hobjs obj Hin. unfold tickObjects in Hin.
  apply filter_In in Hin. destruct Hin as [Hin Hf]. apply onField_iff in Hf.
  apply in_map_iff in Hin. destruct Hin as [o [<- Ho]].
  assert (Hcase : In o objs \/ o = newObject now rnd).
  { destruct (num_gt (now - last) OBJECT_SPAWN_INTERVAL); [| left; exact Ho].
    apply in_app_iff in Ho. destruct Ho as [Ho | [<- | []]]; auto. }
  unfold inPlayfield in *. cbn [fall FallingObject.size FallingObject.x
                                FallingObject.y] in *.
  destruct Hcase as [Hold | ->].
  - destruct (Hobjs o Hold) as [Hs [Hx0 [Hx1 [Hy _]]]].
    repeat split; try assumption. unfold OBJECT_SPEED in *. lra.
  - cbn [newObject FallingObject.size FallingObject.x FallingObject.y] in *.
    unfold GAME_WIDTH, OBJECT_SIZE, OBJECT_SPEED in *.
    repeat split; try assumption; lra.
Qed.

(** X10. Objects stay inside the playfield.  In a session whose frames
    draw [Math.random()] from [[0, 1)], every object of every state is a
    square of side [OBJECT_SIZE] whose drawn box lies between the left
    and the right edge of the playfield, starts above the bottom edge
    and is at most [OBJECT_SIZE - OBJECT_SPEED] above the top edge. *)
Theorem objects_inside_playfield (es : list Event) (obj : FallingObject.t) :
  Forall randomInRange es ->
  In obj (objects (run es initialState)) ->
  inPlayfield obj
  /\ 0 <= Style.left (Obstacle obj)
  /\ Style.left (Obstacle obj) + Style.width (Obstacle obj) <= GAME_WIDTH
  /\ Style.top (Obstacle obj) < GAME_HEIGHT
  /\ 0 < Style.top (Obstacle obj) + Style.height (Obstacle obj).
Proof.
  intros Hes Hin.
  assert (H : forall o, In o (objects (run es initialState)) -> inPlayfield o).
  { apply (run_preserves
             (fun objs (_ : number) => forall o, In o objs -> inPlayfield o)
             randomInRange).
    - intros objs last _ o [].
    - intros now rnd objs last [H0 H1] Hobjs.
      apply playfield_tick; assumption.
    - exact Hes.
    - intros o []. }
  pose proof (H obj Hin) as Hp. split; [exact Hp |].
  destruct Hp as [Hs [Hx0 [Hx1 [Hy0 Hy1]]]].
  cbn [Obstacle Style.left Style.top Style.width Style.height].
  rewrite Hs in *. unfold OBJECT_SIZE, OBJECT_SPEED in *.
  repeat split; try assumption; lra.
Qed.

Lemma frames_randomInRange (n : nat) (t rnd : number) :
  0 <= rnd -> rnd < 1 -> Forall randomInRange (frames n t rnd).
Proof.
  intros H0 H1. revert t. induction n as [| n IH]; intros t; cbn [frames].
  - constructor.
  - constructor; [split; assumption | apply IH].
Qed.

Lemma objects_inside_playfield_witness :
  Forall inPlayfield
    (objects (run (Click :: frames 40 1700000000000 (1 # 2)) initialState)).
Proof.
  apply List.Forall_forall. intros obj Hin.
  refine (proj1 (objects_inside_playfield
                   (Click :: frames 40 1700000000000 (1 # 2)) obj _ Hin)).
  constructor; [exact I |].
  apply frames_randomInRange; [discriminate | reflexivity].
Defined.

(** ** What is tested is what is drawn *)

Lemma movePlayer_dimensions (keys : gset string) (p : PlayerState.t) :
  PlayerState.width (movePlayer keys p) = PlayerState.width p
  /\ PlayerState.height (movePlayer keys p) = PlayerState.height p.
Proof. split; reflexivity. Qed.

Lemma reachable_player_dimensions (s : State) :
  reachable s ->
  PlayerState.width (player s) = PLAYER_WIDTH
  /\ PlayerState.height (player s) = PLAYER_HEIGHT.
Proof.
  intros [es ->].
  enough (H : forall s0,
             PlayerState.width (player s0) = PLAYER_WIDTH
             /\ PlayerState.height (player s0) = PLAYER_HEIGHT ->
             PlayerState.width (player (run es s0)) = PLAYER_WIDTH
             /\ PlayerState.height (player (run es s0)) = PLAYER_HEIGHT)
    by (apply H; split; reflexivity).
  induction es as [| e es IH]; intros s0 H0; [exact H0 |].
  apply (IH (step e s0)). unfold step, commit.
  assert (Hd : PlayerState.width (player (dispatch e s0)) = PLAYER_WIDTH
               /\ PlayerState.height (player (dispatch e s0)) = PLAYER_HEIGHT).
  { destruct (player_dispatch e s0) as [-> | [-> | ->]].
    - exact H0.
    - exact H0.
    - split; reflexivity. }
  destruct (GameState_eqb (gameState s0) (gameState (dispatch e s0)));
    rewrite ?player_cancelComboAnimation; exact Hd.
Qed.



(** ** The combo bar and the combo window *)

Lemma combo_anchor_dispatch (e : Event) (s : State) :
  0 <= pauseComboProgress s
  /\ (lastComboPressTime s = 0 \/ comboStartTimeRef s = lastComboPressTime s) ->
  0 <= pauseComboProgress (dispatch e s)
  /\ (lastComboPressTime (dispatch e s) = 0
      \/ comboStartTimeRef (dispatch e s) = lastComboPressTime (dispatch e s)).
Proof.
  intros H.
  assert (Hfin : forall v, 0 <= Qmax 0 v) by (intros v; apply Q.le_max_l).
  destruct e as [now rnd | h now | key rep now | key |]; cbn [dispatch].
  - destruct (GameState_eqb (gameState s) Active) eqn:E.
    + apply GameState_eqb_eq in E. rewrite (gameLoop_active now rnd s E).
      exact H.
    + rewrite gameLoop_inactive; [exact H |].
      intros HA. rewrite HA in E. discriminate.
  - destruct (existsb (Pos.eqb h) (rafPending s)); [| exact H].
    destruct s; cbn in H; destruct H as [H1 H2]. open_handlers.
    by_cases; split; auto; lra.
  - destruct s; cbn in H; destruct H as [H1 H2]. open_handlers.
    cbn [GameState_eqb negb andb].
    by_cases; split; auto; lra.
  - exact H.
  - unfold renderContent. destruct (gameState s) eqn:E;
      cbn [runHandler onButtonClick]; try exact H.
    destruct s; cbn in H, E; destruct H as [H1 H2]. subst.
    open_handlers. cbn [GameState_eqb]. by_cases; split; auto; lra.
Qed.

Lemma reachable_combo_anchor (s : State) :
  reachable s ->
  0 <= pauseComboProgress s
  /\ (lastComboPressTime s = 0 \/ comboStartTimeRef s = lastComboPressTime s).
Proof.
  intros [es ->].
  enough (H : forall s0,
             0 <= pauseComboProgress s0
             /\ (lastComboPressTime s0 = 0
                 \/ comboStartTimeRef s0 = lastComboPressTime s0) ->
             0 <= pauseComboProgress (run es s0)
             /\ (lastComboPressTime (run es s0) = 0
                 \/ comboStartTimeRef (run es s0)
                    = lastComboPressTime (run es s0))).
  { apply H. split; [cbn; lra | left; reflexivity]. }
  induction es as [| e es IH]; intros s0 H0; [exact H0 |].
  apply (IH (step e s0)). unfold step, commit.
  pose proof (combo_anchor_dispatch e s0 H0) as Hd.
  destruct (GameState_eqb (gameState s0) (gameState (dispatch e s0)));
    [exact Hd |].
  destruct (dispatch e s0). cbn in Hd. open_handlers. by_cases; exact Hd.
Qed.

(** X12. The bar shows the open window.  In every state of a session the
    progress is never negative, and while a first press is recorded
    [comboStartTimeRef] is the time of that press; so a frame of the
    combo bar run at time [now] yields a positive progress exactly when
    a qualifying press at that same [now] would still count as the
    second press. *)
Theorem combo_bar_shows_open_window (now : number) (s : State) :
  reachable s ->
  0 <= pauseComboProgress s
  /\ (~ comboIdle s -> comboStartTimeRef s = lastComboPressTime s)
  /\ (~ comboIdle s ->
      (now - lastComboPressTime s < PAUSE_COMBO_TIMEOUT
       <-> 0 < pauseComboProgress (animateComboBar now s))).
Proof.
  intros Hr. destruct (reachable_combo_anchor s Hr) as [H0 Ha].
  assert (Hs : ~ comboIdle s -> comboStartTimeRef s = lastComboPressTime s).
  { intros Hn. destruct Ha as [E | E]; [| exact E].
    exfalso. apply Hn. unfold comboIdle. rewrite E. reflexivity. }
  split; [exact H0 |]. split; [exact Hs |].
  intros Hn. rewrite <- (Hs Hn), animateComboBar_progress.
  pose proof (progress_value now (comboStartTimeRef s)) as Hv.
  cbv zeta in Hv. destruct Hv as [_ [Hlt [Hge _]]].
  split.
  - intros Hl. destruct (Hlt Hl) as [_ Hpos]. exact Hpos.
  - intros Hpos.
    destruct (Qlt_le_dec (now - comboStartTimeRef s) PAUSE_COMBO_TIMEOUT)
      as [Hl | Hg]; [exact Hl |].
    pose proof (Hge Hg) as Hz. lra.
Qed.

Lemma combo_bar_shows_open_window_witness :
  1700000004000 - lastComboPressTime armedState < PAUSE_COMBO_TIMEOUT
  <-> 0 < pauseComboProgress (animateComboBar 1700000004000 armedState).
Proof.
  assert (Hr : reachable armedState) by (eexists; reflexivity).
  apply (proj2 (proj2 (combo_bar_shows_open_window 1700000004000 armedState Hr))).
  vm_compute. discriminate.
Defined.

(** ** Holding a direction key *)

Lemma step_right (a : number) :
  0 <= a ->
  clamp (Qmin (GAME_WIDTH - PLAYER_WIDTH) a + PLAYER_SPEED)
        0 (GAME_WIDTH - PLAYER_WIDTH)
  == Qmin (GAME_WIDTH - PLAYER_WIDTH) (a + PLAYER_SPEED).
Proof.
  intros Ha. rewrite <- max_min_clamp
    by (unfold GAME_WIDTH, PLAYER_WIDTH; lra).
  unfold GAME_WIDTH, PLAYER_WIDTH, PLAYER_SPEED.
  destruct (Q.min_spec (600 - 60) a) as [[H1 H2] | [H1 H2]];
  destruct (Q.min_spec (600 - 60) (a + 8)) as [[H3 H4] | [H3 H4]];
  destruct (Q.min_spec (600 - 60) (Qmin (600 - 60) a + 8)) as [[H5 H6] | [H5 H6]];
  destruct (Q.max_spec 0 (Qmin (600 - 60) (Qmin (600 - 60) a + 8)))
    as [[H7 H8] | [H7 H8]];
  rewrite H8; rewrite ?H6, ?H4, ?H2; rewrite ?H6, ?H2 in *; lra.
Qed.

Lemma step_left (a : number) :
  a <= GAME_WIDTH - PLAYER_WIDTH ->
  clamp (Qmax 0 a - PLAYER_SPEED) 0 (GAME_WIDTH - PLAYER_WIDTH)
  == Qmax 0 (a - PLAYER_SPEED).
Proof.
  intros Ha. rewrite <- max_min_clamp
    by (unfold GAME_WIDTH, PLAYER_WIDTH; lra).
  unfold GAME_WIDTH, PLAYER_WIDTH, PLAYER_SPEED in *.
  destruct (Q.max_spec 0 a) as [[H1 H2] | [H1 H2]];
  destruct (Q.max_spec 0 (a - 8)) as [[H3 H4] | [H3 H4]];
  destruct (Q.min_spec (600 - 60) (Qmax 0 a - 8)) as [[H5 H6] | [H5 H6]];
  destruct (Q.max_spec 0 (Qmin (600 - 60) (Qmax 0 a - 8)))
    as [[H7 H8] | [H7 H8]];
  rewrite H8; rewrite ?H6, ?H4, ?H2; rewrite ?H6, ?H2 in *; lra.
Qed.

Lemma inject_nat_succ (n : nat) :
  inject_Z (Z.of_nat (S n)) = inject_Z (Z.of_nat n) + 1.
Proof. rewrite Nat2Z.inj_succ, <- Z.add_1_r, inject_Z_plus. reflexivity. Qed.

(** X13. Holding a direction key.  From a player inside
    [[0, GAME_WIDTH - PLAYER_WIDTH]], [n] movement steps with ArrowRight
    held and ArrowLeft not put it at
    [min (GAME_WIDTH - PLAYER_WIDTH) (x + n * PLAYER_SPEED)]; with
    ArrowLeft held and ArrowRight not, at [max 0 (x - n * PLAYER_SPEED)];
    with neither held it stays where it is.  The player runs into the
    wall and stops there. *)
Theorem holding_a_direction (keys : gset string) (p : PlayerState.t) (n : nat) :
  0 <= PlayerState.x p ->
  PlayerState.x p <= GAME_WIDTH - PLAYER_WIDTH ->
  (has "ArrowLeft" keys = false -> has "ArrowRight" keys = true ->
   PlayerState.x (Nat.iter n (movePlayer keys) p)
   == Qmin (GAME_WIDTH - PLAYER_WIDTH)
           (PlayerState.x p + PLAYER_SPEED * inject_Z (Z.of_nat n)))
  /\ (has "ArrowLeft" keys = true -> has "ArrowRight" keys = false ->
      PlayerState.x (Nat.iter n (movePlayer keys) p)
      == Qmax 0 (PlayerState.x p - PLAYER_SPEED * inject_Z (Z.of_nat n)))
  /\ (has "ArrowLeft" keys = false -> has "ArrowRight" keys = false ->
      PlayerState.x (Nat.iter n (movePlayer keys) p) == PlayerState.x p).
Proof.
  intros H0 H1.
  assert (Hb : 0 <= GAME_WIDTH - PLAYER_WIDTH)
    by (unfold GAME_WIDTH, PLAYER_WIDTH; lra).
  assert (Hn : 0 <= inject_Z (Z.of_nat n)).
  { change 0 with (inject_Z 0). rewrite <- Zle_Qle. lia. }
  split; [| split]; intros HL HR.
  - induction n as [| n IH].
    + change (inject_Z (Z.of_nat 0)) with 0. cbn [Nat.iter nat_rect].
      rewrite Q.min_r; unfold PLAYER_SPEED, GAME_WIDTH, PLAYER_WIDTH in *; lra.
    + assert (Hn' : 0 <= inject_Z (Z.of_nat n))
        by (change 0 with (inject_Z 0); rewrite <- Zle_Qle; lia).
      cbn [Nat.iter nat_rect]. rewrite movePlayer_x. unfold held. rewrite HL, HR.
      rewrite (clamp_compat _
                 (Qmin (GAME_WIDTH - PLAYER_WIDTH)
                    (PlayerState.x p + PLAYER_SPEED * inject_Z (Z.of_nat n))
                  + PLAYER_SPEED) _ _ Hb)
        by (rewrite (IH Hn'); lra).
      rewrite step_right by (unfold PLAYER_SPEED; lra).
      rewrite inject_nat_succ. apply Q.min_compat; [reflexivity | lra].
  - induction n as [| n IH].
    + change (inject_Z (Z.of_nat 0)) with 0. cbn [Nat.iter nat_rect].
      rewrite Q.max_r; unfold PLAYER_SPEED, GAME_WIDTH, PLAYER_WIDTH in *; lra.
    + assert (Hn' : 0 <= inject_Z (Z.of_nat n))
        by (change 0 with (inject_Z 0); rewrite <- Zle_Qle; lia).
      cbn [Nat.iter nat_rect]. rewrite movePlayer_x. unfold held. rewrite HL, HR.
      rewrite (clamp_compat _
                 (Qmax 0 (PlayerState.x p
                          - PLAYER_SPEED * inject_Z (Z.of_nat n))
                  - PLAYER_SPEED) _ _ Hb)
        by (rewrite (IH Hn'); lra).
      rewrite step_left
        by (unfold PLAYER_SPEED, GAME_WIDTH, PLAYER_WIDTH in *; lra).
      rewrite inject_nat_succ. apply Q.max_compat; [reflexivity | lra].
  - clear Hn. induction n as [| n IH]; [reflexivity |].
    cbn [Nat.iter nat_rect]. rewrite movePlayer_x. unfold held. rewrite HL, HR.
    rewrite (clamp_compat _ (PlayerState.x p) _ _ Hb)
      by (rewrite IH; lra).
    apply clamp_inside; assumption.
Qed.

Lemma holding_a_direction_witness :
  PlayerState.x
    (Nat.iter 40 (movePlayer {[ "ArrowRight"%string ]})
       (PlayerState.mk 270 PLAYER_WIDTH PLAYER_HEIGHT))
  == Qmin (GAME_WIDTH - PLAYER_WIDTH) (270 + PLAYER_SPEED * inject_Z 40).
Proof.
  apply (proj1 (holding_a_direction {[ "ArrowRight"%string ]}
                  (PlayerState.mk 270 PLAYER_WIDTH PLAYER_HEIGHT) 40
                  ltac:(vm_compute; discriminate)
                  ltac:(vm_compute; discriminate)));
    vm_compute; reflexivity.
Defined.

(** ** Runs of frames *)

Lemma commit_same (s : State) : commit s s = s.
Proof.
  unfold commit.
  destruct (GameState_eqb_eq (gameState s) (gameState s)) as [_ H].
  rewrite (H eq_refl). reflexivity.
Qed.

Lemma step_frame_inactive (now rnd : number) (s : State) :
  gameState s <> Active -> step (Frame now rnd) s = s.
Proof.
  intros HN. unfold step. cbn [dispatch].
  rewrite (gameLoop_inactive now rnd s HN). apply commit_same.
Qed.

Lemma run_frames_inactive (es : list Event) (s : State) :
  Forall isFrame es -> gameState s <> Active -> run es s = s.
Proof.
  intros Hes HN. induction es as [| e es IH]; [reflexivity |].
  inversion Hes as [| e' es' He Hes']; subst.
  destruct e as [now rnd | | | |]; try contradiction.
  unfold run. cbn [fold_left]. rewrite (step_frame_inactive now rnd s HN).
  exact (IH Hes').
Qed.

Lemma gameState_frame_active (now rnd : number) (s : State) :
  gameState s = Active ->
  gameState (step (Frame now rnd) s) = Active
  \/ gameState (step (Frame now rnd) s) = GameOver.
Proof.
  intros HA. rewrite gameState_step. cbn [dispatch].
  rewrite (gameLoop_active now rnd s HA). cbn [gameState].
  destruct (existsb _ _); auto.
Qed.

(** X14. A game that is not running is frozen.  However many frames
    the main loop runs while the game is [Ready], [Paused] or
    [GameOver], the state stays exactly as it is. *)
Theorem frames_while_inactive (es : list Event) (s : State) :
  Forall isFrame es ->
  gameState s <> Active ->
  run es s = s.
Proof. exact (run_frames_inactive es s). Qed.

Lemma frames_isFrame (n : nat) (t rnd : number) :
  Forall isFrame (frames n t rnd).
Proof.
  revert t. induction n as [| n IH]; intros t; cbn [frames];
    constructor; [exact I | apply IH].
Qed.

Lemma frames_while_inactive_witness :
  run (frames 40 1700000000000 (1 # 2)) initialState = initialState.
Proof.
  apply frames_while_inactive.
  - apply frames_isFrame.
  - discriminate.
Defined.

(** X15. The score counts the frames survived.  When a run of frames
    starts and ends with the game [Active], the score has grown by the
    number of frames; when it starts [Active] and ends in [GameOver],
    by at most that number and at least 1. *)
Theorem score_counts_frames (es : list Event) (s : State) :
  Forall isFrame es ->
  gameState s = Active ->
  (gameState (run es s) = Active ->
   score (run es s) == score s + inject_Z (Z.of_nat (length es)))
  /\ (gameState (run es s) = GameOver ->
      score s + 1 <= score (run es s)
      /\ score (run es s) <= score s + inject_Z (Z.of_nat (length es))).
Proof.
  intros Hes. revert s. induction es as [| e es IH]; intros s HA.
  - change (run [] s) with s.
    change (inject_Z (Z.of_nat (length (@nil Event)))) with 0.
    split; [intros _; lra | intros HG; congruence].
  - inversion Hes as [| e' es' He Hes']; subst.
    destruct e as [now rnd | | | |]; try contradiction.
    change (run (Frame now rnd :: es) s)
      with (run es (step (Frame now rnd) s)).
    change (length (Frame now rnd :: es)) with (S (length es)).
    rewrite inject_nat_succ.
    assert (Hn : 0 <= inject_Z (Z.of_nat (length es)))
      by (change 0 with (inject_Z 0); rewrite <- Zle_Qle; lia).
    assert (Hsc : score (step (Frame now rnd) s) = score s + 1).
    { unfold step, commit. cbn [dispatch].
      rewrite (gameLoop_active now rnd s HA). cbn [gameState score].
      match goal with |- context [if ?c then _ else _] => destruct c end;
        [reflexivity |].
      unfold cancelComboAnimation. cbn [comboAnimationRef].
      destruct (comboAnimationRef s); reflexivity. }
    destruct (gameState (step (Frame now rnd) s)) eqn:Eg.
    + exfalso.
      destruct (gameState_frame_active now rnd s HA); congruence.
    + destruct (IH Hes' (step (Frame now rnd) s) Eg) as [IH1 IH2].
      rewrite Hsc in IH1, IH2. split.
      * intros HF. rewrite (IH1 HF). lra.
      * intros HF. destruct (IH2 HF) as [Hlo Hhi]. split; lra.
    + exfalso.
      destruct (gameState_frame_active now rnd s HA); congruence.
    + rewrite (run_frames_inactive es (step (Frame now rnd) s) Hes')
        by (rewrite Eg; discriminate).
      rewrite Eg, Hsc. split; [discriminate |]. intros _. split; lra.
Qed.

Lemma score_counts_frames_witness :
  score (run (frames 40 1700000000016 (1 # 2))
           (step (Frame 1700000000000 (1 # 2)) (step Click initialState)))
  == score (step (Frame 1700000000000 (1 # 2)) (step Click initialState))
     + inject_Z (Z.of_nat (length (frames 40 1700000000016 (1 # 2)))).
Proof.
  apply (proj1 (score_counts_frames
                  (frames 40 1700000000016 (1 # 2))
                  (step (Frame 1700000000000 (1 # 2)) (step Click initialState))
                  (frames_isFrame _ _ _)
                  ltac:(vm_compute; reflexivity))).
  vm_compute. reflexivity.
Defined.

(** ** Keys forgotten by a reset *)

Lemma reachable_step (e : Event) (s : State) :
  reachable s -> reachable (step e s).
Proof.
  intros [es ->]. exists (es ++ [e]). unfold run.
  rewrite fold_left_app. reflexivity.
Qed.

Lemma reachable_player_bounds (s : State) :
  reachable s ->
  0 <= PlayerState.x (player s)
  /\ PlayerState.x (player s) <= GAME_WIDTH - PLAYER_WIDTH.
Proof.
  intros Hr. destruct (reachable_playerOnGrid s Hr) as [z [E [Hlo Hhi]]].
  rewrite E. unfold GAME_WIDTH, PLAYER_WIDTH.
  rewrite Zle_Qle in Hlo, Hhi.
  change (inject_Z 0) with 0 in Hlo. change (inject_Z 540) with 540 in Hhi.
  split; lra.
Qed.

Lemma has_empty (k : string) : has k ∅ = false.
Proof. unfold has. apply bool_decide_eq_false_2. set_solver. Qed.

(** X16. Keys forgotten by a reset stay forgotten.  Start, Restart and
    Resume empty the held set.  From a state of a session with an empty
    held set, frames of the main loop and auto-repeat key-downs, in any
    number and order, leave the held set empty and the player where it
    is: a key that is still physically down moves nothing until it is
    released and pressed again. *)
Theorem forgotten_keys_stay_forgotten (es : list Event) (s : State) :
  reachable s ->
  keysPressed s = ∅ ->
  Forall isFrameOrRepeat es ->
  keysPressed (run es s) = ∅
  /\ PlayerState.x (player (run es s)) == PlayerState.x (player s)
  /\ keysPressed (resetGame s) = ∅
  /\ (gameState s = Paused -> keysPressed (resumeGame s) = ∅).
Proof.
  intros Hr Hk Hes.
  assert (Hmain : keysPressed (run es s) = ∅
                  /\ PlayerState.x (player (run es s))
                     == PlayerState.x (player s)).
  { revert s Hr Hk. induction es as [| e es IH]; intros s Hr Hk.
    - split; [exact Hk | reflexivity].
    - inversion Hes as [| e' es' He Hes']; subst.
      change (run (e :: es) s) with (run es (step e s)).
      assert (Hstep : keysPressed (step e s) = ∅
                      /\ PlayerState.x (player (step e s))
                         == PlayerState.x (player s)).
      { destruct e as [now rnd | | key rep now | |]; try contradiction.
        - destruct (GameState_eqb (gameState s) Active) eqn:E.
          + apply GameState_eqb_eq in E.
            assert (Hd : keysPressed (dispatch (Frame now rnd) s) = ∅
                         /\ PlayerState.x (player (dispatch (Frame now rnd) s))
                            == PlayerState.x (player s)).
            { cbn [dispatch]. rewrite (gameLoop_active now rnd s E).
              cbn [keysPressed player]. split; [exact Hk |].
              rewrite movePlayer_x, Hk. unfold held. rewrite !has_empty.
              destruct (reachable_player_bounds s Hr) as [Hlo Hhi].
              rewrite clamp_inside; unfold PLAYER_SPEED; lra. }
            unfold step, commit.
            destruct (GameState_eqb (gameState s)
                        (gameState (dispatch (Frame now rnd) s)));
              [exact Hd |].
            destruct (dispatch (Frame now rnd) s). cbn in Hd.
            open_handlers. by_cases; exact Hd.
          + rewrite step_frame_inactive; [split; [exact Hk | reflexivity] |].
            intros HA. rewrite HA in E. discriminate.
        - cbn [isFrameOrRepeat] in He. subst rep.
          unfold step. cbn [dispatch handleKeyDown]. rewrite commit_same.
          split; [exact Hk | reflexivity]. }
      destruct Hstep as [Hk' Hx'].
      destruct (IH Hes' (step e s) (reachable_step e s Hr) Hk') as [IHk IHx].
      split; [exact IHk |]. rewrite IHx. exact Hx'. }
  destruct Hmain as [H1 H2].
  split; [exact H1 |]. split; [exact H2 |]. split; [reflexivity |].
  intros HP. unfold resumeGame. rewrite HP. cbn [GameState_eqb].
  destruct s. open_handlers. by_cases.
Qed.

Lemma forgotten_keys_stay_forgotten_witness :
  PlayerState.x
    (player (run [KeyDown "ArrowRight" true 1700000000000;
                  Frame 1700000000016 (1 # 2)]
               (step Click initialState)))
  == PlayerState.x (player (step Click initialState)).
Proof.
  assert (Hr : reachable (step Click initialState))
    by (apply reachable_step; exists []; reflexivity).
  refine (proj1 (proj2 (forgotten_keys_stay_forgotten
                          [KeyDown "ArrowRight" true 1700000000000;
                           Frame 1700000000016 (1 # 2)]
                          (step Click initialState) Hr _ _))).
  - vm_compute. reflexivity.
  - repeat constructor.
Defined.

(** ** The player over a session *)

(** X17. The player stays on the grid.  In every state of a session,
    whatever the events were, the player's x is an integer between 0 and
    [GAME_WIDTH - PLAYER_WIDTH]: the bound of the movement step holds
    after a start, a restart, a pause and a resume as well, and the
    movement arithmetic never leaves the integers. *)
Theorem player_always_on_grid (s : State) :
  reachable s ->
  (exists z : Z,
      PlayerState.x (player s) == inject_Z z /\ (0 <= z <= 540)%Z)
  /\ 0 <= PlayerState.x (player s)
  /\ PlayerState.x (player s) <= GAME_WIDTH - PLAYER_WIDTH
  /\ Style.left (Player (player s)) + Style.width (Player (player s))
     <= GAME_WIDTH.
Proof.
  intros Hr. split; [exact (reachable_playerOnGrid s Hr) |].
  destruct (reachable_player_bounds s Hr) as [Hlo Hhi].
  destruct (reachable_player_dimensions s Hr) as [Hw _].
  split; [exact Hlo |]. split; [exact Hhi |].
  cbn [Player Style.left Style.width]. rewrite Hw.
  unfold GAME_WIDTH, PLAYER_WIDTH in *. lra.
Qed.

Lemma player_always_on_grid_witness :
  0 <= PlayerState.x (player earlyGame)
  /\ PlayerState.x (player earlyGame) <= GAME_WIDTH - PLAYER_WIDTH.
Proof.
  assert (Hr : reachable earlyGame) by (eexists; reflexivity).
  destruct (player_always_on_grid earlyGame Hr) as [_ [Hlo [Hhi _]]].
  split; [exact Hlo | exact Hhi].
Defined.
